(** * fal_key_manager.js: the active-credential synchronisation protocol

    A shallow embedding of [src/web/fal_key_manager.js] and the
    properties of its credential store, its push to the server, the
    queue hook, the management dialog and the selector refresh.

    Conventions.
    - A JavaScript string is the list of its UTF-16 code units, each a
      number in [N]; [js "..."] writes a literal.  No definition depends
      on a code unit being below 2^16.
    - [localStorage] is a finite map from strings to strings, without a
      quota.
    - A plain object is the list of its own properties in the order
      [Object.keys] reports them (array-index keys ascending, then the
      others in creation order); property reads fall back to
      [Object.prototype].
    - An [async] function is a finite tree of its interactions with the
      outside (the awaited request, [console.error], the host's
      original [queuePrompt]); running it against an environment yields
      the trace of events and the way its promise settles.
    - The functions that work on the loaded keys are modelled for a
      credential set, a plain object whose values are strings; where
      [loadKeys] gives anything else they answer [None]. *)

From Stdlib Require Import NArith ZArith String Ascii Bool Lia.
From stdpp Require Import base option list gmap.

Set Warnings "-register-all".
Local Open Scope N_scope.

(** ** Strings *)

Module JS.

Abbreviation jstring := (list N).

Fixpoint js (s : string) : jstring :=
  match s with
  | EmptyString => []
  | String a s' => N_of_ascii a :: js s'
  end.

(** ToBoolean on a string: the empty string is the only falsy one. *)
Definition truthy_string (s : jstring) : bool :=
  match s with [] => false | _ :: _ => true end.

(** [a === b] on strings. *)
Definition str_eqb (a b : jstring) : bool := bool_decide (a = b).

(** WhiteSpace and LineTerminator code units, the ones
    [String.prototype.trim] strips. *)
Definition is_trim_space (c : N) : bool :=
  (9 <=? c) && (c <=? 13) || (c =? 32) || (c =? 160) || (c =? 5760)
  || (8192 <=? c) && (c <=? 8202) || (c =? 8232) || (c =? 8233)
  || (c =? 8239) || (c =? 8287) || (c =? 12288) || (c =? 65279).

Fixpoint trim_start (s : jstring) : jstring :=
  match s with
  | [] => []
  | c :: r => if is_trim_space c then trim_start r else s
  end.

Definition trim_end (s : jstring) : jstring := rev (trim_start (rev s)).

Definition trim (s : jstring) : jstring := trim_end (trim_start s).

(** [s.slice(0, n)] for [n >= 0]. *)
Definition slice0 (n : nat) (s : jstring) : jstring := take n s.

Fixpoint starts_with (p s : jstring) : bool :=
  match p, s with
  | [], _ => true
  | _ :: _, [] => false
  | a :: p', b :: s' => (a =? b) && starts_with p' s'
  end.

(** [text.includes(s)]: [s] occurs in [text] as a contiguous run. *)
Fixpoint str_includes (text s : jstring) : bool :=
  starts_with s text ||
  match text with
  | [] => false
  | _ :: text' => str_includes text' s
  end.

(** [names.includes(x)] on an array of strings. *)
Definition array_includes (names : list jstring) (x : jstring) : bool :=
  existsb (str_eqb x) names.

End JS.
Export JS.

(** ** Plain objects *)

Module Obj.

(** The runtime values this program reads out of a credential object:
    a string it stored there, or what the lookup finds further up, on
    [Object.prototype]. *)
Inductive value : Type :=
| VUndefined
| VString (s : jstring)
| VFunction (name : jstring)
| VObjectPrototype.

(** ToBoolean. *)
Definition truthy (v : value) : bool :=
  match v with
  | VUndefined => false
  | VString s => truthy_string s
  | VFunction _ => true
  | VObjectPrototype => true
  end.

(** The function-valued properties of [Object.prototype]. *)
Definition Object_prototype_functions : list jstring :=
  [ js "constructor"; js "hasOwnProperty"; js "isPrototypeOf";
    js "propertyIsEnumerable"; js "toLocaleString"; js "toString";
    js "valueOf"; js "__defineGetter__"; js "__defineSetter__";
    js "__lookupGetter__"; js "__lookupSetter__" ].

Definition proto_name : jstring := js "__proto__".

(** What [Object.prototype] answers for a property name. *)
Definition inherited (k : jstring) : value :=
  if str_eqb k proto_name then VObjectPrototype
  else if array_includes Object_prototype_functions k then VFunction k
  else VUndefined.

Section Props.
Context {A : Type}.

Fixpoint own_get (props : list (jstring * A)) (k : jstring) : option A :=
  match props with
  | [] => None
  | (k', v) :: rest => if str_eqb k' k then Some v else own_get rest k
  end.

Definition has_own (props : list (jstring * A)) (k : jstring) : bool :=
  match own_get props k with Some _ => true | None => false end.

(** [Object.keys(o)]. *)
Definition Object_keys (props : list (jstring * A)) : list jstring :=
  props.*1.

(** [delete o[k]]. *)
Fixpoint delete_own (props : list (jstring * A)) (k : jstring)
  : list (jstring * A) :=
  match props with
  | [] => []
  | (k', v) :: rest =>
      if str_eqb k' k then rest else (k', v) :: delete_own rest k
  end.

(** Overwrite the value of an own property, keeping its place. *)
Fixpoint update_own (props : list (jstring * A)) (k : jstring) (v : A)
  : list (jstring * A) :=
  match props with
  | [] => []
  | (k', v') :: rest =>
      if str_eqb k' k then (k', v) :: rest
      else (k', v') :: update_own rest k v
  end.

End Props.

Definition is_digit (c : N) : bool := (48 <=? c) && (c <=? 57).

Fixpoint digits_value (s : jstring) (acc : N) : option N :=
  match s with
  | [] => Some acc
  | c :: r => if is_digit c then digits_value r (10 * acc + (c - 48))
              else None
  end.

Fixpoint uint_units (d : Decimal.uint) : jstring :=
  match d with
  | Decimal.Nil => []
  | Decimal.D0 d => 48 :: uint_units d
  | Decimal.D1 d => 49 :: uint_units d
  | Decimal.D2 d => 50 :: uint_units d
  | Decimal.D3 d => 51 :: uint_units d
  | Decimal.D4 d => 52 :: uint_units d
  | Decimal.D5 d => 53 :: uint_units d
  | Decimal.D6 d => 54 :: uint_units d
  | Decimal.D7 d => 55 :: uint_units d
  | Decimal.D8 d => 56 :: uint_units d
  | Decimal.D9 d => 57 :: uint_units d
  end.

(** ToString of a non-negative integer. *)
Definition decimal (n : N) : jstring := uint_units (N.to_uint n).

(** An array index: a key that is the decimal spelling of an integer
    in [0, 2^32 - 2]. *)
Definition array_index (k : jstring) : option N :=
  match digits_value k 0 with
  | Some i =>
      if i <? 4294967295
      then if str_eqb (decimal i) k then Some i else None
      else None
  | None => None
  end.

(** The order of own property keys: array indices ascending, then the
    other keys; [key_before k k'] says that [k] may stand before a
    different key [k']. *)
Definition key_before (k k' : jstring) : bool :=
  match array_index k, array_index k' with
  | Some i, Some j => i <? j
  | Some _, None => true
  | None, Some _ => false
  | None, None => negb (str_eqb k k')
  end.

Fixpoint ordered_keys (ks : list jstring) : bool :=
  match ks with
  | [] => true
  | k :: rest => forallb (key_before k) rest && ordered_keys rest
  end.

Section Define.
Context {A : Type}.

(** Place a new array-index key: after the smaller indices, before the
    larger ones and before every other key. *)
Fixpoint insert_index (i : N) (k : jstring) (v : A)
    (props : list (jstring * A)) : list (jstring * A) :=
  match props with
  | [] => [(k, v)]
  | (k', v') :: rest =>
      match array_index k' with
      | Some j => if j <? i then (k', v') :: insert_index i k v rest
                  else (k, v) :: props
      | None => (k, v) :: props
      end
  end.

(** CreateDataProperty: overwrite in place, or add in key order. *)
Definition define_own (props : list (jstring * A)) (k : jstring) (v : A)
  : list (jstring * A) :=
  if has_own props k then update_own props k v
  else match array_index k with
       | Some i => insert_index i k v props
       | None => props ++ [(k, v)]
       end.

(** [define_own] on a key and its value as one pair. *)
Definition define_pair (acc : list (jstring * A)) (kv : jstring * A)
  : list (jstring * A) := define_own acc kv.1 kv.2.

(** The representation invariant of a plain object: no key twice, and
    the keys in the order [Object.keys] reports. *)
Definition well_formed (props : list (jstring * A)) : bool :=
  ordered_keys (Object_keys props).

End Define.

(** [o[k]] on an object holding strings: own property first, then
    [Object.prototype]. *)
Definition get (o : list (jstring * jstring)) (k : jstring) : value :=
  match own_get o k with
  | Some s => VString s
  | None => inherited k
  end.

(** [o[k] = s] for a string [s].  An own property is overwritten; a
    name found nowhere, or found as a data property of
    [Object.prototype], becomes a new own property; [__proto__] reaches
    the setter of [Object.prototype], which ignores a string. *)
Definition set (o : list (jstring * jstring)) (k s : jstring)
  : list (jstring * jstring) :=
  if has_own o k then update_own o k s
  else if str_eqb k proto_name then o
  else define_own o k s.

End Obj.

(** ** JSON *)

Module JSON.

(** A JSON number, kept as the decimal it was written as:
    [(-1)^neg * mant * 10^exp10].  The platform rounds it to a double;
    the program only ever observes whether the result is zero. *)
Record number : Type := Number { neg : bool; mant : N; exp10 : Z }.

(** The double nearest to the decimal is +0 or -0: the decimal is zero
    or at most half the least subnormal, 2^-1075. *)
Definition rounds_to_zero (n : number) : bool :=
  (mant n =? 0) ||
  (exp10 n <? 0)%Z && (mant n * 2 ^ 1075 <=? 10 ^ Z.to_N (- exp10 n)).

(** The values [JSON.parse] produces. *)
Inductive json : Type :=
| JNull
| JBool (b : bool)
| JNum (n : number)
| JStr (s : jstring)
| JArr (items : list json)
| JObj (props : list (jstring * json)).

(** ToBoolean on a parsed value. *)
Definition truthy (v : json) : bool :=
  match v with
  | JNull => false
  | JBool b => b
  | JNum n => negb (rounds_to_zero n)
  | JStr s => truthy_string s
  | JArr _ => true
  | JObj _ => true
  end.

(** *** JSON.stringify *)

Definition hex_digit (d : N) : N := if d <? 10 then 48 + d else 87 + d.

(** [\uXXXX], lower-case hexadecimal. *)
Definition unicode_escape (c : N) : jstring :=
  [92; 117; hex_digit (c / 4096 mod 16); hex_digit (c / 256 mod 16);
   hex_digit (c / 16 mod 16); hex_digit (c mod 16)].

Definition is_high_surrogate (c : N) : bool := (55296 <=? c) && (c <=? 56319).
Definition is_low_surrogate (c : N) : bool := (56320 <=? c) && (c <=? 57343).

(** One code unit that is not half of a well-formed surrogate pair. *)
Definition quote_unit (c : N) : jstring :=
  if c =? 8 then [92; 98]
  else if c =? 9 then [92; 116]
  else if c =? 10 then [92; 110]
  else if c =? 12 then [92; 102]
  else if c =? 13 then [92; 114]
  else if c =? 34 then [92; 34]
  else if c =? 92 then [92; 92]
  else if (c <? 32) || is_high_surrogate c || is_low_surrogate c
       then unicode_escape c
  else [c].

Fixpoint quote_body (s : jstring) : jstring :=
  match s with
  | [] => []
  | c :: r =>
      if is_high_surrogate c then
        match r with
        | d :: r' =>
            if is_low_surrogate d then c :: d :: quote_body r'
            else quote_unit c ++ quote_body r
        | [] => quote_unit c
        end
      else quote_unit c ++ quote_body r
  end.

(** QuoteJSONString. *)
Definition quote (s : jstring) : jstring := [34] ++ quote_body s ++ [34].

(** [JSON.stringify(v)]; [None] is [undefined], which makes the
    enclosing object leave the property out. *)
Definition stringify_value (v : Obj.value) : option jstring :=
  match v with
  | Obj.VUndefined => None
  | Obj.VString s => Some (quote s)
  | Obj.VFunction _ => None
  | Obj.VObjectPrototype => Some (js "{}")
  end.

Fixpoint stringify_members (props : list (jstring * Obj.value))
  : list jstring :=
  match props with
  | [] => []
  | (k, v) :: rest =>
      match stringify_value v with
      | Some t => (quote k ++ [58] ++ t) :: stringify_members rest
      | None => stringify_members rest
      end
  end.

Fixpoint join_comma (parts : list jstring) : jstring :=
  match parts with
  | [] => []
  | [p] => p
  | p :: rest => p ++ [44] ++ join_comma rest
  end.

(** [JSON.stringify(o)] for a plain object [o]. *)
Definition stringify (props : list (jstring * Obj.value)) : jstring :=
  [123] ++ join_comma (stringify_members props) ++ [125].

(** *** JSON.parse *)

Definition is_ws (c : N) : bool :=
  (c =? 9) || (c =? 10) || (c =? 13) || (c =? 32).

Fixpoint skip_ws (s : jstring) : jstring :=
  match s with
  | [] => []
  | c :: r => if is_ws c then skip_ws r else s
  end.

Definition hex_value (c : N) : option N :=
  if (48 <=? c) && (c <=? 57) then Some (c - 48)
  else if (97 <=? c) && (c <=? 102) then Some (c - 87)
  else if (65 <=? c) && (c <=? 70) then Some (c - 55)
  else None.

Definition hex4 (a b c d : N) : option N :=
  match hex_value a, hex_value b, hex_value c, hex_value d with
  | Some x, Some y, Some z, Some w => Some (4096 * x + 256 * y + 16 * z + w)
  | _, _, _, _ => None
  end.

Definition simple_escape (e : N) : option N :=
  if e =? 34 then Some 34
  else if e =? 92 then Some 92
  else if e =? 47 then Some 47
  else if e =? 98 then Some 8
  else if e =? 102 then Some 12
  else if e =? 110 then Some 10
  else if e =? 114 then Some 13
  else if e =? 116 then Some 9
  else None.

Definition cons_unit (c : N) (r : option (jstring * jstring))
  : option (jstring * jstring) :=
  match r with
  | Some (s, rest) => Some (c :: s, rest)
  | None => None
  end.

(** The characters of a string literal after its opening quote, up to
    and including the closing quote. *)
Fixpoint parse_string_body (s : jstring) : option (jstring * jstring) :=
  match s with
  | [] => None
  | c :: r =>
      if c =? 34 then Some ([], r)
      else if c =? 92 then
        match r with
        | [] => None
        | e :: r1 =>
            if e =? 117 then
              match r1 with
              | h1 :: h2 :: h3 :: h4 :: r2 =>
                  match hex4 h1 h2 h3 h4 with
                  | Some u => cons_unit u (parse_string_body r2)
                  | None => None
                  end
              | _ => None
              end
            else
              match simple_escape e with
              | Some u => cons_unit u (parse_string_body r1)
              | None => None
              end
        end
      else if c <? 32 then None
      else cons_unit c (parse_string_body r)
  end.

(** A run of decimal digits: its value on top of [acc], how many there
    were, and what follows. *)
Fixpoint parse_digits (s : jstring) (acc : N) (count : nat)
  : N * nat * jstring :=
  match s with
  | [] => (acc, count, [])
  | c :: r =>
      if Obj.is_digit c then parse_digits r (10 * acc + (c - 48)) (S count)
      else (acc, count, s)
  end.

(** The integer part: a single [0], or a digit 1-9 and more digits. *)
Definition parse_int (s : jstring) : option (N * jstring) :=
  match s with
  | [] => None
  | c :: r =>
      if c =? 48 then Some (0, r)
      else if Obj.is_digit c then
        let '(v, _, rest) := parse_digits r (c - 48) 0 in Some (v, rest)
      else None
  end.

(** The optional fraction: the mantissa extended by its digits and
    their count. *)
Definition parse_frac (m : N) (s : jstring) : option (N * nat * jstring) :=
  match s with
  | [] => Some (m, O, s)
  | c :: r =>
      if c =? 46 then
        let '(v, count, rest) := parse_digits r m 0 in
        match count with
        | O => None
        | S _ => Some (v, count, rest)
        end
      else Some (m, O, s)
  end.

(** The sign in front of the digits of an exponent. *)
Definition parse_sign (s : jstring) : bool * jstring :=
  match s with
  | [] => (false, s)
  | c :: r =>
      if c =? 43 then (false, r)
      else if c =? 45 then (true, r)
      else (false, s)
  end.

(** The optional exponent. *)
Definition parse_exp (s : jstring) : option (Z * jstring) :=
  match s with
  | [] => Some (0%Z, s)
  | c :: r =>
      if (c =? 101) || (c =? 69) then
        let '(sign, r1) := parse_sign r in
        let '(v, count, rest) := parse_digits r1 0 0 in
        match count with
        | O => None
        | S _ => Some (if sign then (- Z.of_N v)%Z else Z.of_N v, rest)
        end
      else Some (0%Z, s)
  end.

Definition parse_number (s : jstring) : option (number * jstring) :=
  let '(sign, s1) :=
    match s with
    | [] => (false, s)
    | c :: r => if c =? 45 then (true, r) else (false, s)
    end in
  match parse_int s1 with
  | None => None
  | Some (i, s2) =>
      match parse_frac i s2 with
      | None => None
      | Some (m, fd, s3) =>
          match parse_exp s3 with
          | None => None
          | Some (e, s4) =>
              Some (Number sign m (e - Z.of_nat fd), s4)
          end
      end
  end.

Definition expect (lit : jstring) (v : json) (s : jstring)
  : option (json * jstring) :=
  if starts_with lit s then Some (v, drop (length lit) s) else None.

(** One unit of [fuel] per value, member or element; a text of [n]
    code units never needs more than [n + 1]. *)
Fixpoint parse_value (fuel : nat) (s : jstring) : option (json * jstring) :=
  match fuel with
  | O => None
  | S fuel' =>
      match skip_ws s with
      | [] => None
      | c :: r =>
          if c =? 123 then
            match skip_ws r with
            | [] => None
            | d :: r' =>
                if d =? 125 then Some (JObj [], r')
                else parse_members fuel' (d :: r') []
            end
          else if c =? 91 then
            match skip_ws r with
            | [] => None
            | d :: r' =>
                if d =? 93 then Some (JArr [], r')
                else parse_elements fuel' (d :: r') []
            end
          else if c =? 34 then
            match parse_string_body r with
            | Some (str, rest) => Some (JStr str, rest)
            | None => None
            end
          else if c =? 116 then expect (js "true") (JBool true) (c :: r)
          else if c =? 102 then expect (js "false") (JBool false) (c :: r)
          else if c =? 110 then expect (js "null") JNull (c :: r)
          else
            match parse_number (c :: r) with
            | Some (n, rest) => Some (JNum n, rest)
            | None => None
            end
      end
  end

with parse_members (fuel : nat) (s : jstring) (acc : list (jstring * json))
  : option (json * jstring) :=
  match fuel with
  | O => None
  | S fuel' =>
      match skip_ws s with
      | [] => None
      | q :: r =>
          if q =? 34 then
            match parse_string_body r with
            | None => None
            | Some (k, r1) =>
                match skip_ws r1 with
                | [] => None
                | colon :: r2 =>
                    if colon =? 58 then
                      match parse_value fuel' r2 with
                      | None => None
                      | Some (v, r3) =>
                          let acc' := Obj.define_own acc k v in
                          match skip_ws r3 with
                          | [] => None
                          | d :: r4 =>
                              if d =? 44 then parse_members fuel' r4 acc'
                              else if d =? 125 then Some (JObj acc', r4)
                              else None
                          end
                      end
                    else None
                end
            end
          else None
      end
  end

with parse_elements (fuel : nat) (s : jstring) (acc : list json)
  : option (json * jstring) :=
  match fuel with
  | O => None
  | S fuel' =>
      match parse_value fuel' s with
      | None => None
      | Some (v, r1) =>
          match skip_ws r1 with
          | [] => None
          | d :: r2 =>
              if d =? 44 then parse_elements fuel' r2 (acc ++ [v])
              else if d =? 93 then Some (JArr (acc ++ [v]), r2)
              else None
          end
      end
  end.

(** [JSON.parse(text)]; [None] is the SyntaxError it throws. *)
Definition parse (text : jstring) : option json :=
  match parse_value (S (length text)) text with
  | Some (v, rest) =>
      match skip_ws rest with
      | [] => Some v
      | _ :: _ => None
      end
  | None => None
  end.

End JSON.

(** ** Asynchronous functions *)

Module Async.

(** How a promise settles. *)
Inductive settled (A : Type) : Type :=
| Fulfilled (a : A)
| Rejected (reason : jstring).
Arguments Fulfilled {A} a.
Arguments Rejected {A} reason.

(** The options handed to [api.fetchApi]. *)
Record request : Type := Request {
  url : jstring;
  method : jstring;
  headers : list (jstring * jstring);
  body : jstring
}.

Section Task.
Context {Arg Res : Type}.

(** The body of an [async] function, as far as the outside sees it.
    [Await req k]: call [api.fetchApi] with [req], suspend until the
    promise settles, go on with [k].  [ConsoleError]: one call of
    [console.error].  [OrigQueue args k]: call the host's original
    [queuePrompt] with [args] and go on with what it gives.  A request
    is [Rejected] when the promise of [api.fetchApi] rejects or the call
    throws; the response of a fulfilled one is never looked at and is
    not kept. *)
Inductive task (R : Type) : Type :=
| Return (r : R)
| Throw (reason : jstring)
| Await (req : request) (k : settled unit -> task R)
| ConsoleError (msg reason : jstring) (k : task R)
| OrigQueue (args : list Arg) (k : settled Res -> task R).
Arguments Return {R} r.
Arguments Throw {R} reason.
Arguments Await {R} req k.
Arguments ConsoleError {R} msg reason k.
Arguments OrigQueue {R} args k.

(** [await t; f(...)]: a rejection of [t] skips [f]. *)
Fixpoint task_bind {A B : Type} (t : task A) (f : A -> task B) : task B :=
  match t with
  | Return a => f a
  | Throw e => Throw e
  | Await req k => Await req (fun s => task_bind (k s) f)
  | ConsoleError msg e k => ConsoleError msg e (task_bind k f)
  | OrigQueue args k => OrigQueue args (fun s => task_bind (k s) f)
  end.

(** [return p]: the promise of the function settles as [p] does. *)
Definition settle_as {R : Type} (s : settled R) : task R :=
  match s with
  | Fulfilled r => Return r
  | Rejected e => Throw e
  end.

(** What can be observed of a run, in order. *)
Inductive event : Type :=
| EvFetch (req : request)
| EvFetchSettled (s : settled unit)
| EvConsoleError (msg reason : jstring)
| EvOrigQueue (args : list Arg)
| EvOrigQueueSettled (s : settled Res).

(** The outside: how the server answers a request and what the host's
    original [queuePrompt] does with its arguments. *)
Record env : Type := Env {
  net : request -> settled unit;
  host : list Arg -> settled Res
}.

Fixpoint run {R : Type} (e : env) (t : task R) : list event * settled R :=
  match t with
  | Return r => ([], Fulfilled r)
  | Throw x => ([], Rejected x)
  | Await req k =>
      let s := net e req in
      let '(tr, o) := run e (k s) in
      (EvFetch req :: EvFetchSettled s :: tr, o)
  | ConsoleError msg x k =>
      let '(tr, o) := run e k in
      (EvConsoleError msg x :: tr, o)
  | OrigQueue args k =>
      let s := host e args in
      let '(tr, o) := run e (k s) in
      (EvOrigQueue args :: EvOrigQueueSettled s :: tr, o)
  end.

Definition is_fetch (ev : event) : bool :=
  match ev with EvFetch _ => true | _ => false end.

(** The number of network calls in a trace. *)
Definition network_calls (tr : list event) : nat :=
  length (List.filter is_fetch tr).

End Task.
Arguments Return {Arg Res R} r.
Arguments Throw {Arg Res R} reason.
Arguments Await {Arg Res R} req k.
Arguments ConsoleError {Arg Res R} msg reason k.
Arguments OrigQueue {Arg Res R} args k.
Arguments task : clear implicits.
Arguments event : clear implicits.
Arguments env : clear implicits.

End Async.

(** ** The key manager *)

Module KeyManager.
Import Obj JSON Async.

Abbreviation storage := (gmap jstring jstring).
Abbreviation credentials := (list (jstring * jstring)).

(** *** localStorage helpers *)

Definition KEYS_STORAGE : jstring := js "fal_api_keys".
Definition ACTIVE_STORAGE : jstring := js "fal_active_key_name".

(** [localStorage.getItem(k)]; [None] is [null]. *)
Definition getItem (st : storage) (k : jstring) : option jstring := st !! k.

Definition setItem (k v : jstring) (st : storage) : storage := <[k := v]> st.

(** [loadKeys()].  [JSON.parse] turns its argument into a string first,
    so an absent entry is parsed as the text [null]. *)
Definition loadKeys (st : storage) : json :=
  match JSON.parse (default (js "null") (getItem st KEYS_STORAGE)) with
  | Some v => if JSON.truthy v then v else JObj []
  | None => JObj []
  end.

Definition to_values (keys : credentials) : list (jstring * value) :=
  prod_map id VString <$> keys.

(** The same object as [JSON.parse] would give it. *)
Definition to_json (keys : credentials) : list (jstring * json) :=
  prod_map id JStr <$> keys.

(** [saveKeys(keys)] for an object holding strings. *)
Definition saveKeys (keys : credentials) (st : storage) : storage :=
  setItem KEYS_STORAGE (JSON.stringify (to_values keys)) st.

(** [localStorage.getItem(ACTIVE_STORAGE) || ""]. *)
Definition getActiveKeyName (st : storage) : jstring :=
  match getItem st ACTIVE_STORAGE with
  | Some s => if truthy_string s then s else []
  | None => []
  end.

Definition setActiveKeyName (name : jstring) (st : storage) : storage :=
  setItem ACTIVE_STORAGE name st.

(** The credential set held by a loaded value: a plain object all of
    whose properties are strings.  The functions below are modelled on
    such values; on any other (a blob that somebody else wrote) they
    give [None]. *)
Fixpoint strings_of (props : list (jstring * json)) : option credentials :=
  match props with
  | [] => Some []
  | (k, JStr s) :: rest =>
      match strings_of rest with
      | Some c => Some ((k, s) :: c)
      | None => None
      end
  | _ :: _ => None
  end.

Definition as_credentials (v : json) : option credentials :=
  match v with
  | JObj props => strings_of props
  | _ => None
  end.

Definition loadCredentials (st : storage) : option credentials :=
  as_credentials (loadKeys st).

(** *** Send key to server *)

(** The request of the push: [POST /fal-api/set-key] with the body
    [JSON.stringify({ key, name })]. *)
Definition set_key_request (key : value) (name : jstring) : request :=
  {| url := js "/fal-api/set-key";
     method := js "POST";
     headers := [(js "Content-Type", js "application/json")];
     body := JSON.stringify [(js "key", key); (js "name", VString name)] |}.

Definition push_failed : jstring :=
  js "[FAL Key Manager] Failed to push key to server:".

Section Hook.
Context {Arg Res : Type}.

(** [pushActiveKeyToServer()], called when the storage is [st].  [keys]
    is what [loadKeys()] returns, read as a credential set; [key] is
    [keys[name]]; the [try] turns a rejected request into one call of
    [console.error]. *)
Definition pushActiveKeyToServer (st : storage)
  : option (task Arg Res unit) :=
  let name := getActiveKeyName st in
  match loadCredentials st with
  | None => None
  | Some keys =>
      let key := Obj.get keys name in
      Some (if negb (Obj.truthy key) then Return tt
            else Await (set_key_request key name)
                   (fun s => match s with
                             | Fulfilled _ => Return tt
                             | Rejected e =>
                                 ConsoleError push_failed e (Return tt)
                             end))
  end.

(** *** Queue-prompt hook *)

(** [app.queuePrompt]: a function of the argument list, run against
    the storage of the moment. *)
Definition queue_fn : Type := list Arg -> storage -> option (task Arg Res Res).

(** The host's own [queuePrompt]. *)
Definition origQueue : queue_fn :=
  fun args _ => Some (OrigQueue args settle_as).

(** The state [installQueueHook] works on: the flag [hooked] and the
    current [app.queuePrompt]. *)
Record app : Type := App { hooked : bool; queuePrompt : queue_fn }.

(** [installQueueHook()].  The new [app.queuePrompt] awaits the push
    and then returns what the function it replaced gives for the same
    arguments. *)
Definition installQueueHook (a : app) : app :=
  if hooked a then a
  else
    let orig := queuePrompt a in
    {| hooked := true;
       queuePrompt := fun args st =>
         match pushActiveKeyToServer st with
         | None => None
         | Some push =>
             match orig args st with
             | None => None
             | Some q => Some (task_bind push (fun _ => q))
             end
         end |}.

End Hook.
Arguments queue_fn : clear implicits.
Arguments app : clear implicits.

(** *** Refresh combo widget on the node *)

(** A widget of the node: its name, its value and, for a combo, the
    list [options.values]. *)
Record widget : Type := Widget {
  w_name : jstring;
  w_value : value;
  w_values : list jstring
}.

(** The node a dialog is bound to: [widgets] may be missing; [redraws]
    counts the calls of [setDirtyCanvas]. *)
Record node : Type := Node {
  widgets : option (list widget);
  redraws : nat
}.

Definition NO_KEYS : jstring := js "(no keys)".
Definition KEY_SELECTOR : jstring := js "key_selector".

(** [ws.find(w => w.name === name)]. *)
Definition find_widget (name : jstring) (ws : list widget) : option widget :=
  List.find (fun w => str_eqb (w_name w) name) ws.

(** The two assignments to the widget that [find] returned: the first
    one of that name is changed where it stands. *)
Fixpoint assign_widget (name : jstring) (values : list jstring) (v : value)
    (ws : list widget) : list widget :=
  match ws with
  | [] => []
  | w :: rest =>
      if str_eqb (w_name w) name
      then {| w_name := w_name w; w_value := v; w_values := values |} :: rest
      else w :: assign_widget name values v rest
  end.

(** [options[0]]. *)
Definition first_of (options : list jstring) : value :=
  match options with
  | [] => VUndefined
  | o :: _ => VString o
  end.

(** [refreshNodeWidgets(node)]; a missing node is [None]. *)
Definition refreshNodeWidgets (nd : option node) (st : storage)
  : option (option node) :=
  match nd with
  | None => Some None
  | Some nd =>
      match loadCredentials st with
      | None => None
      | Some keys =>
          let names := Object_keys keys in
          let options :=
            match names with
            | [] => [NO_KEYS]
            | _ :: _ => names
            end in
          let ws :=
            match widgets nd with
            | None => None
            | Some ws =>
                match find_widget KEY_SELECTOR ws with
                | None => Some ws
                | Some _ =>
                    let active := getActiveKeyName st in
                    Some (assign_widget KEY_SELECTOR options
                            (if array_includes names active
                             then VString active else first_of options) ws)
                end
            end in
          Some (Some {| widgets := ws; redraws := S (redraws nd) |})
      end
  end.

(** *** Manage-keys dialog *)

(** One line of the list: the text of its [span] and the name its
    Remove button is bound to. *)
Record row : Type := Row { info : jstring; remove_name : jstring }.

Inductive listing : Type :=
| Rows (rows : list row)
| NoKeysSaved.

(** [keys[n].slice(0, 8) + "..."]; [None] is the TypeError of calling
    [slice] on a value that has none. *)
Definition preview (v : value) : option jstring :=
  match v with
  | VString s => Some (slice0 8 s ++ js "...")
  | _ => None
  end.

Definition render_row (keys : credentials) (n : jstring) : option row :=
  match preview (Obj.get keys n) with
  | Some p => Some {| info := n ++ js "  (" ++ p ++ js ")"; remove_name := n |}
  | None => None
  end.

Fixpoint render_rows (keys : credentials) (names : list jstring)
  : option (list row) :=
  match names with
  | [] => Some []
  | n :: rest =>
      match render_row keys n, render_rows keys rest with
      | Some r, Some rs => Some (r :: rs)
      | _, _ => None
      end
  end.

(** [render()], as far as the list of entries goes. *)
Definition render (st : storage) : option listing :=
  match loadCredentials st with
  | None => None
  | Some keys =>
      match Object_keys keys with
      | [] => Some NoKeysSaved
      | names =>
          match render_rows keys names with
          | Some rows => Some (Rows rows)
          | None => None
          end
      end
  end.

(** An open dialog: the storage, what the dialog lists, and the node
    it was opened from. *)
Record ui : Type := UI {
  store : storage;
  dialog : listing;
  bound : option node
}.

(** [render(); refreshNodeWidgets(node);], the end of both handlers. *)
Definition rerender (st : storage) (nd : option node) : option ui :=
  match render st, refreshNodeWidgets nd st with
  | Some d, Some nd' => Some {| store := st; dialog := d; bound := nd' |}
  | _, _ => None
  end.

(** The Remove button of the line for [n]. *)
Definition del_onclick (n : jstring) (u : ui) : option ui :=
  match loadCredentials (store u) with
  | None => None
  | Some updated =>
      let updated := delete_own updated n in
      let st := saveKeys updated (store u) in
      let st := if str_eqb (getActiveKeyName st) n
                then setActiveKeyName [] st else st in
      rerender st (bound u)
  end.

(** The Add button, with what the two inputs hold. *)
Definition addBtn_onclick (nameInput keyInput : jstring) (u : ui)
  : option ui :=
  let n := trim nameInput in
  let k := trim keyInput in
  if negb (truthy_string n) || negb (truthy_string k) then Some u
  else
    match loadCredentials (store u) with
    | None => None
    | Some updated =>
        let updated := Obj.set updated n k in
        rerender (saveKeys updated (store u)) (bound u)
    end.

Definition showManageKeysDialog (nd : option node) (st : storage)
  : option ui :=
  match render st with
  | Some d => Some {| store := st; dialog := d; bound := nd |}
  | None => None
  end.

(** *** The extension *)

(** The callback of the [key_selector] combo, which the host calls
    with the option that was picked. *)
Definition key_selector_callback (v : jstring) (st : storage) : storage :=
  if truthy_string v && negb (str_eqb v NO_KEYS)
  then setActiveKeyName v st
  else st.

(** *** The scenario of the specification

    One stored credential, [prod], which is the active one; a node with
    the three widgets [nodeCreated] gives it; a server that cannot be
    reached and a host function that answers with the number of its
    arguments. *)

Definition scenario_keys : credentials := [(js "prod", js "fal-aaa111")].

Definition scenario_store : storage :=
  saveKeys scenario_keys (setActiveKeyName (js "prod") ∅).

Definition scenario_widgets : list widget :=
  [ {| w_name := KEY_SELECTOR; w_value := VString (js "prod");
       w_values := [js "prod"] |};
    {| w_name := js "status_display"; w_value := VString (js "Active: prod");
       w_values := [] |};
    {| w_name := js "manage_keys"; w_value := VString (js "Manage Keys");
       w_values := [] |} ].

Definition scenario_node : node :=
  {| widgets := Some scenario_widgets; redraws := 0 |}.

Definition scenario_ui : ui :=
  {| store := scenario_store;
     dialog := Rows [ {| info := js "prod  (fal-aaa1...)";
                         remove_name := js "prod" |} ];
     bound := Some scenario_node |}.

Definition scenario_env : env nat nat :=
  {| net := fun _ => Rejected (js "Failed to fetch");
     host := fun args => Fulfilled (length args) |}.

(** *** The rest of the extension: [nodeCreated] and the status event *)

Definition STATUS_DISPLAY : jstring := js "status_display".
Definition MANAGE_KEYS : jstring := js "manage_keys".
Definition NODE_CLASS : jstring := js "FalApiKeyManager".

(** What a widget does when the host fires it: the three functions
    [nodeCreated] hands to [addWidget]. *)
Inductive callback : Type :=
| SelectKey
| NoCallback
| OpenManageKeys.

(** One call of [node.addWidget]: the type, the widget with its name,
    first value and [values], the callback, and the flags of the
    options object. *)
Record added : Type := Added {
  a_type : jstring;
  a_widget : widget;
  a_callback : callback;
  a_flags : list (jstring * bool)
}.

(** What [nodeCreated] did: nothing for a node of another class, else
    the widgets it asked for, whether it started a push (which it does
    not await), and the value it left in [node.serialize_widgets]. *)
Inductive creation : Type :=
| Skipped
| Created (widgets_added : list added) (pushed : bool)
    (serialize_widgets : bool).

Definition nodeCreated (comfyClass : jstring) (st : storage)
  : option creation :=
  if negb (str_eqb comfyClass NODE_CLASS) then Some Skipped
  else
    match loadCredentials st with
    | None => None
    | Some keys =>
        let names := Object_keys keys in
        let options :=
          match names with
          | [] => [NO_KEYS]
          | _ :: _ => names
          end in
        let active := getActiveKeyName st in
        Some (Created
          [ {| a_type := js "combo";
               a_widget :=
                 {| w_name := KEY_SELECTOR;
                    w_value := if array_includes names active
                               then VString active else first_of options;
                    w_values := options |};
               a_callback := SelectKey;
               a_flags := [] |};
            {| a_type := js "text";
               a_widget :=
                 {| w_name := STATUS_DISPLAY;
                    w_value :=
                      VString (js "Active: " ++
                               (if truthy_string active then active
                                else js "default"));
                    w_values := [] |};
               a_callback := NoCallback;
               a_flags := [(js "multiline", false); (js "serialize", false)] |};
            {| a_type := js "button";
               a_widget :=
                 {| w_name := MANAGE_KEYS;
                    w_value := VString (js "Manage Keys");
                    w_values := [] |};
               a_callback := OpenManageKeys;
               a_flags := [] |} ]
          (truthy_string active && Obj.truthy (Obj.get keys active))
          false)
    end.

(** [w.value = v] on the widget that [find] returned. *)
Fixpoint assign_value (name : jstring) (v : value) (ws : list widget)
  : list widget :=
  match ws with
  | [] => []
  | w :: rest =>
      if str_eqb (w_name w) name
      then {| w_name := w_name w; w_value := v; w_values := w_values w |}
           :: rest
      else w :: assign_value name v rest
  end.

(** A node of the graph, with its [type]. *)
Record graph_node : Type := GraphNode {
  node_type : jstring;
  node_body : node
}.

(** The body of the loop of the [fal-key-status] listener, for one
    node of the class. *)
Definition show_status (active_key_name : jstring) (nd : node) : node :=
  match widgets nd with
  | None => nd
  | Some ws =>
      match find_widget STATUS_DISPLAY ws with
      | None => nd
      | Some _ =>
          {| widgets :=
               Some (assign_value STATUS_DISPLAY
                       (VString (js "Active: " ++ active_key_name)) ws);
             redraws := S (redraws nd) |}
      end
  end.

(** The listener of [fal-key-status], on the nodes of the graph; the
    event carries the name as a string. *)
Definition on_key_status (active_key_name : jstring)
    (nodes : list graph_node) : list graph_node :=
  (fun n => if str_eqb (node_type n) NODE_CLASS
            then {| node_type := node_type n;
                    node_body := show_status active_key_name (node_body n) |}
            else n) <$> nodes.

(** *** The dialog and the selector in use *)

(** What a user can do with an open dialog and the node it is bound
    to: press Add with something in the two inputs, press the Remove
    button of a line (a line may be stale), or pick a value in the
    selector, which makes the host call the callback and leave
    [shown] in the widget. *)
Inductive action : Type :=
| Add (nameInput keyInput : jstring)
| Remove (n : jstring)
| Select (v : jstring) (shown : value).

(** The host only delivers a value that is among the options of the
    selector; anything else is not on offer and changes nothing. *)
Definition select (v : jstring) (shown : value) (u : ui) : ui :=
  match bound u with
  | None => u
  | Some nd =>
      match widgets nd with
      | None => u
      | Some ws =>
          match find_widget KEY_SELECTOR ws with
          | None => u
          | Some w =>
              if array_includes (w_values w) v then
                {| store := key_selector_callback v (store u);
                   dialog := dialog u;
                   bound := Some {| widgets :=
                                      Some (assign_value KEY_SELECTOR shown ws);
                                    redraws := redraws nd |} |}
              else u
          end
      end
  end.

Definition perform (a : action) (u : ui) : option ui :=
  match a with
  | Add nameInput keyInput => addBtn_onclick nameInput keyInput u
  | Remove n => del_onclick n u
  | Select v shown => Some (select v shown u)
  end.

Fixpoint perform_all (acts : list action) (u : ui) : option ui :=
  match acts with
  | [] => Some u
  | a :: rest =>
      match perform a u with
      | Some u' => perform_all rest u'
      | None => None
      end
  end.

(** The state the handlers keep: the stored set is a credential set
    whose names and secrets are not empty; the active name is empty or
    one of the names; the dialog lists the stored set; the selector of
    the bound node offers the stored names. *)
Definition consistent (u : ui) : Prop :=
  exists keys nd ws w,
    loadCredentials (store u) = Some keys /\
    Forall (fun kv => kv.1 <> [] /\ kv.2 <> []) keys /\
    (getActiveKeyName (store u) = [] \/
     getActiveKeyName (store u) ∈ Object_keys keys) /\
    render (store u) = Some (dialog u) /\
    bound u = Some nd /\
    widgets nd = Some ws /\
    find_widget KEY_SELECTOR ws = Some w /\
    w_values w = match Object_keys keys with
                 | [] => [NO_KEYS]
                 | _ :: _ => Object_keys keys
                 end.

(** The first state: nothing stored, the node as the host made it from
    the widgets [nodeCreated] asked for, the dialog just opened. *)
Definition fresh_node : node :=
  {| widgets :=
       match nodeCreated NODE_CLASS ∅ with
       | Some (Created ws _ _) => Some (a_widget <$> ws)
       | _ => None
       end;
     redraws := 0 |}.

Definition fresh_ui : ui :=
  {| store := ∅; dialog := NoKeysSaved; bound := Some fresh_node |}.

(** *** What the server does with a request

    [api.fetchApi] is not part of this repository: it is the host's
    wrapper of [fetch].  The promise of [fetch] is fulfilled with the
    response as soon as the server answers, whatever the HTTP status of
    the answer, and is rejected only when no answer arrives. *)
Inductive server_outcome : Type :=
| Answered (status : N)
| NoAnswer (reason : jstring).

Definition fetch_settles (o : server_outcome) : settled unit :=
  match o with
  | Answered _ => Fulfilled tt
  | NoAnswer reason => Rejected reason
  end.

(** The environment in which the server decides what comes back. *)
Definition fetching {Arg Res : Type} (server : request -> server_outcome)
    (host : list Arg -> settled Res) : env Arg Res :=
  {| net := fun req => fetch_settles (server req); host := host |}.

End KeyManager.

(** * Properties *)

(** ** Plain objects: keys, order, lookups *)

Module ObjFacts.
Import Obj.

Lemma str_eqb_true (a b : jstring) : str_eqb a b = true <-> a = b.
Proof. unfold str_eqb. apply bool_decide_eq_true. Qed.

Lemma str_eqb_false (a b : jstring) : str_eqb a b = false <-> a <> b.
Proof. unfold str_eqb. apply bool_decide_eq_false. Qed.

Lemma str_eqb_refl (a : jstring) : str_eqb a a = true.
Proof. by apply str_eqb_true. Qed.

Lemma str_eqb_sym (a b : jstring) : str_eqb a b = str_eqb b a.
Proof.
  destruct (str_eqb b a) eqn:E.
  - apply str_eqb_true in E. subst. apply str_eqb_refl.
  - apply str_eqb_false in E. apply str_eqb_false. congruence.
Qed.

(** A key that is an array index is the decimal spelling of it. *)
Lemma array_index_decimal (k : jstring) (i : N) :
  array_index k = Some i -> k = decimal i.
Proof.
  unfold array_index. destruct (digits_value k 0) as [v|]; [|done].
  destruct (v <? 4294967295); [|done].
  destruct (str_eqb (decimal v) k) eqn:E; [|done].
  intros [= <-]. symmetry. by apply str_eqb_true.
Qed.

Lemma array_index_inj (k k' : jstring) (i : N) :
  array_index k = Some i -> array_index k' = Some i -> k = k'.
Proof.
  intros H H'. apply array_index_decimal in H, H'. congruence.
Qed.

Lemma key_before_ne (k k' : jstring) : key_before k k' = true -> k <> k'.
Proof.
  unfold key_before. intros H ->.
  destruct (array_index k') as [i|].
  - apply N.ltb_lt in H. lia.
  - by rewrite str_eqb_refl in H.
Qed.

(** Whatever stands before an array index is a smaller array index. *)
Lemma key_before_index (k' k : jstring) (i : N) :
  key_before k' k = true -> array_index k = Some i ->
  exists j, array_index k' = Some j /\ j < i.
Proof.
  unfold key_before. intros H Hk. rewrite Hk in H.
  destruct (array_index k') as [j|]; [|done].
  exists j. split; [done|]. by apply N.ltb_lt.
Qed.

Section Props.
Context {A : Type}.
Implicit Types (props : list (jstring * A)) (k : jstring) (v : A).

Lemma own_get_not_key props k :
  k ∉ Object_keys props -> own_get props k = None.
Proof.
  induction props as [|[k' v'] rest IH]; [done|].
  cbn. intros Hn. apply not_elem_of_cons in Hn as [Hne Hn].
  destruct (str_eqb k' k) eqn:E.
  - apply str_eqb_true in E. congruence.
  - by apply IH.
Qed.

Lemma own_get_is_key props k v :
  own_get props k = Some v -> k ∈ Object_keys props.
Proof.
  induction props as [|[k' v'] rest IH]; [done|].
  cbn. destruct (str_eqb k' k) eqn:E.
  - apply str_eqb_true in E. subst. intros _. left.
  - intros H. right. by apply IH.
Qed.

Lemma has_own_key props k :
  has_own props k = true <-> k ∈ Object_keys props.
Proof.
  unfold has_own. split.
  - destruct (own_get props k) eqn:E; [|done]. intros _.
    by eapply own_get_is_key.
  - intros Hin. destruct (own_get props k) eqn:E; [done|].
    exfalso. revert E. induction props as [|[k' v'] rest IH]; cbn.
    + by apply elem_of_nil in Hin.
    + cbn in Hin. destruct (str_eqb k' k) eqn:E'; [done|].
      apply str_eqb_false in E'. apply elem_of_cons in Hin as [->|Hin]; [done|].
      by apply IH.
Qed.

Lemma ordered_keys_forall (k : jstring) (ks : list jstring) :
  forallb (key_before k) ks = true -> k ∉ ks.
Proof.
  intros H Hin. rewrite forallb_forall in H.
  apply list_elem_of_In in Hin. apply H in Hin.
  by apply key_before_ne in Hin.
Qed.

(** *** delete *)

Lemma delete_own_keys_sub props k x :
  x ∈ Object_keys (delete_own props k) -> x ∈ Object_keys props.
Proof.
  induction props as [|[k' v'] rest IH]; [done|].
  cbn. destruct (str_eqb k' k).
  - intros H. by right.
  - cbn. intros H. apply elem_of_cons in H as [->|H]; [left|right; by apply IH].
Qed.

Lemma forallb_delete_own (P : jstring -> bool) props k :
  forallb P (Object_keys props) = true ->
  forallb P (Object_keys (delete_own props k)) = true.
Proof.
  rewrite !forallb_forall. intros H x Hx. apply H.
  apply list_elem_of_In. apply list_elem_of_In in Hx.
  by eapply delete_own_keys_sub.
Qed.

Lemma delete_own_well_formed props k :
  well_formed props = true -> well_formed (delete_own props k) = true.
Proof.
  unfold well_formed.
  induction props as [|[k' v'] rest IH]; [done|].
  cbn. intros H. apply andb_true_iff in H as [H1 H2].
  destruct (str_eqb k' k); [done|].
  cbn. apply andb_true_iff. split; [by apply forallb_delete_own|by apply IH].
Qed.

Lemma delete_own_gone props k :
  well_formed props = true -> own_get (delete_own props k) k = None.
Proof.
  unfold well_formed.
  induction props as [|[k' v'] rest IH]; [done|].
  cbn. intros H. apply andb_true_iff in H as [H1 H2].
  destruct (str_eqb k' k) eqn:E.
  - apply str_eqb_true in E. subst.
    apply own_get_not_key. by apply ordered_keys_forall.
  - cbn. rewrite E. by apply IH.
Qed.

Lemma delete_own_other props k k0 :
  k0 <> k -> own_get (delete_own props k) k0 = own_get props k0.
Proof.
  intros Hne. induction props as [|[k' v'] rest IH]; [done|].
  cbn. destruct (str_eqb k' k) eqn:E.
  - apply str_eqb_true in E. subst.
    destruct (str_eqb k k0) eqn:E0; [|done].
    apply str_eqb_true in E0. congruence.
  - cbn. by rewrite IH.
Qed.

Lemma delete_own_absent props k :
  own_get props k = None -> delete_own props k = props.
Proof.
  induction props as [|[k' v'] rest IH]; [done|].
  cbn. destruct (str_eqb k' k); [done|]. intros H. by rewrite IH.
Qed.

Lemma delete_own_length props k v :
  own_get props k = Some v -> S (length (delete_own props k)) = length props.
Proof.
  induction props as [|[k' v'] rest IH]; [done|].
  cbn. destruct (str_eqb k' k); [done|]. intros H. cbn. by rewrite IH.
Qed.

(** *** overwrite *)

Lemma update_own_keys props k v :
  Object_keys (update_own props k v) = Object_keys props.
Proof.
  unfold Object_keys.
  induction props as [|[k' v'] rest IH]; [done|].
  cbn. destruct (str_eqb k' k); cbn; [done|]. by rewrite IH.
Qed.

Lemma update_own_length props k v :
  length (update_own props k v) = length props.
Proof.
  induction props as [|[k' v'] rest IH]; [done|].
  cbn. destruct (str_eqb k' k); cbn; [done|]. by rewrite IH.
Qed.

Lemma update_own_well_formed props k v :
  well_formed props = true -> well_formed (update_own props k v) = true.
Proof. unfold well_formed. by rewrite update_own_keys. Qed.

Lemma update_own_get props k v :
  has_own props k = true -> own_get (update_own props k v) k = Some v.
Proof.
  unfold has_own.
  induction props as [|[k' v'] rest IH]; [done|].
  cbn. destruct (str_eqb k' k) eqn:E; cbn; rewrite E; [done|]. apply IH.
Qed.

Lemma update_own_other props k v k0 :
  k0 <> k -> own_get (update_own props k v) k0 = own_get props k0.
Proof.
  intros Hne. induction props as [|[k' v'] rest IH]; [done|].
  cbn. destruct (str_eqb k' k) eqn:E; cbn.
  - apply str_eqb_true in E. subst.
    destruct (str_eqb k k0) eqn:E0; [|done].
    apply str_eqb_true in E0. congruence.
  - by rewrite IH.
Qed.

(** *** define *)

Lemma insert_index_append props k v i :
  array_index k = Some i ->
  forallb (fun k' => key_before k' k) (Object_keys props) = true ->
  insert_index i k v props = props ++ [(k, v)].
Proof.
  intros Hk. unfold Object_keys.
  induction props as [|[k' v'] rest IH]; [done|].
  cbn. intros H. apply andb_true_iff in H as [H1 H2].
  destruct (key_before_index _ _ _ H1 Hk) as (j & -> & Hj).
  apply N.ltb_lt in Hj. rewrite Hj. by rewrite IH.
Qed.

(** A key that every present key may stand before goes to the end. *)
Lemma define_own_append props k v :
  forallb (fun k' => key_before k' k) (Object_keys props) = true ->
  define_own props k v = props ++ [(k, v)].
Proof.
  intros H. unfold define_own.
  destruct (has_own props k) eqn:E.
  - apply has_own_key in E. rewrite forallb_forall in H.
    apply list_elem_of_In in E. apply H in E.
    by apply key_before_ne in E.
  - destruct (array_index k) as [i|] eqn:Hk; [|done].
    by apply insert_index_append.
Qed.

Lemma ordered_keys_app (l1 l2 : list jstring) :
  ordered_keys (l1 ++ l2) = true <->
  ordered_keys l1 = true /\ ordered_keys l2 = true /\
  forall x, x ∈ l1 -> forallb (key_before x) l2 = true.
Proof.
  induction l1 as [|a l1 IH]; cbn.
  - split; [intros H; repeat split; [done|]|by intros (_ & H & _)].
    intros x Hx. by apply elem_of_nil in Hx.
  - rewrite forallb_app, !andb_true_iff, IH. split.
    + intros ((Ha1 & Ha2) & H1 & H2 & H3). repeat split; try done.
      intros x Hx. apply elem_of_cons in Hx as [->|Hx]; [done|by apply H3].
    + intros ((Ha1 & H1) & H2 & H3). repeat split; try done.
      * apply H3. left.
      * intros x Hx. apply H3. by right.
Qed.

(** Defining the properties of a well-formed object one after the other
    builds that object again. *)
Lemma define_own_rebuild (rest acc : list (jstring * A)) :
  well_formed (acc ++ rest) = true ->
  fold_left define_pair rest acc = acc ++ rest.
Proof.
  revert acc. induction rest as [|[k v] rest IH]; intros acc H; cbn.
  - by rewrite app_nil_r.
  - unfold define_pair at 2. cbn.
    assert (Hacc : forallb (fun k' => key_before k' k) (Object_keys acc) = true).
    { unfold well_formed, Object_keys in H. rewrite fmap_app in H.
      apply ordered_keys_app in H as (_ & _ & H).
      apply forallb_forall. intros x Hx. apply list_elem_of_In in Hx.
      specialize (H x Hx). cbn in H. by apply andb_true_iff in H as [H _]. }
    rewrite (define_own_append _ _ _ Hacc).
    rewrite IH; rewrite <- app_assoc; done.
Qed.

Lemma insert_index_keys_forallb (P : jstring -> bool) props k v i :
  forallb P (Object_keys (insert_index i k v props))
  = P k && forallb P (Object_keys props).
Proof.
  unfold Object_keys.
  induction props as [|[k' v'] rest IH]; cbn; [done|].
  destruct (array_index k') as [j|]; [|done].
  destruct (j <? i); [|done].
  cbn. rewrite IH. by destruct (P k'), (P k).
Qed.

Lemma key_before_after_index (k k' x : jstring) (i j : N) :
  array_index k = Some i -> array_index k' = Some j -> i <= j ->
  key_before k' x = true -> key_before k x = true.
Proof.
  unfold key_before. intros -> -> Hij.
  destruct (array_index x) as [m|]; [|done].
  rewrite !N.ltb_lt. lia.
Qed.

Lemma key_before_after_other (k k' x : jstring) (i : N) :
  array_index k = Some i -> array_index k' = None ->
  key_before k' x = true -> key_before k x = true.
Proof.
  unfold key_before. intros -> ->.
  by destruct (array_index x) as [m|].
Qed.

Lemma insert_index_well_formed props k v i :
  array_index k = Some i -> has_own props k = false ->
  well_formed props = true ->
  well_formed (insert_index i k v props) = true.
Proof.
  intros Hk. unfold well_formed.
  induction props as [|[k' v'] rest IH]; [done|].
  intros Hown H. cbn in H. apply andb_true_iff in H as [H1 H2].
  assert (Hne : k' <> k).
  { intros ->. unfold has_own in Hown. cbn in Hown.
    by rewrite str_eqb_refl in Hown. }
  assert (Hown' : has_own rest k = false).
  { unfold has_own in *. cbn in Hown.
    apply str_eqb_false in Hne. by rewrite Hne in Hown. }
  cbn. destruct (array_index k') as [j|] eqn:Hk'.
  - destruct (j <? i) eqn:Hji.
    + cbn. apply andb_true_iff. split; [|by apply IH].
      fold (Object_keys (insert_index i k v rest)).
      rewrite insert_index_keys_forallb. apply andb_true_iff. split; [|done].
      unfold key_before. by rewrite Hk', Hk.
    + apply N.ltb_ge in Hji.
      assert (i <> j) by (intros ->; eauto using array_index_inj).
      cbn. rewrite H1, H2, !andb_true_r. apply andb_true_iff. split.
      * unfold key_before. rewrite Hk, Hk'. apply N.ltb_lt. lia.
      * apply forallb_forall. intros x Hx.
        rewrite forallb_forall in H1. apply H1 in Hx.
        eapply key_before_after_index; eauto.
  - cbn. rewrite H1, H2, !andb_true_r. apply andb_true_iff. split.
    + unfold key_before. by rewrite Hk, Hk'.
    + apply forallb_forall. intros x Hx.
      rewrite forallb_forall in H1. apply H1 in Hx.
      eapply key_before_after_other; eauto.
Qed.

Lemma define_own_well_formed props k v :
  well_formed props = true -> well_formed (define_own props k v) = true.
Proof.
  intros H. unfold define_own. destruct (has_own props k) eqn:E.
  - by apply update_own_well_formed.
  - destruct (array_index k) as [i|] eqn:Hk.
    + by apply insert_index_well_formed.
    + unfold well_formed, Object_keys in *. rewrite fmap_app.
      apply ordered_keys_app. repeat split; [done|].
      intros x Hx. cbn. rewrite andb_true_r.
      unfold key_before. rewrite Hk. destruct (array_index x); [done|].
      apply negb_true_iff, str_eqb_false. intros ->.
      apply has_own_key in Hx. congruence.
Qed.

End Props.
End ObjFacts.

(** ** JSON: what [stringify] writes, [parse] reads back *)

Module JSONFacts.
Import Obj JSON ObjFacts.

Lemma hex_value_digit (d : N) : d < 16 -> hex_value (hex_digit d) = Some d.
Proof.
  intros Hd. unfold hex_digit, hex_value.
  destruct (d <? 10) eqn:E.
  - apply N.ltb_lt in E.
    replace ((48 <=? 48 + d) && (48 + d <=? 57)) with true.
    + f_equal. lia.
    + symmetry. apply andb_true_iff. split; apply N.leb_le; lia.
  - apply N.ltb_ge in E.
    replace ((48 <=? 87 + d) && (87 + d <=? 57)) with false.
    + replace ((97 <=? 87 + d) && (87 + d <=? 102)) with true.
      * f_equal. lia.
      * symmetry. apply andb_true_iff. split; apply N.leb_le; lia.
    + symmetry. apply andb_false_iff. right. apply N.leb_gt. lia.
Qed.

Lemma hex4_escape (c : N) :
  c < 65536 ->
  hex4 (hex_digit (c / 4096 mod 16)) (hex_digit (c / 256 mod 16))
       (hex_digit (c / 16 mod 16)) (hex_digit (c mod 16)) = Some c.
Proof.
  intros Hc. unfold hex4.
  rewrite !hex_value_digit by (apply N.mod_lt; lia).
  f_equal.
  pose proof (N.div_mod c 16 ltac:(lia)) as H0.
  pose proof (N.div_mod (c / 16) 16 ltac:(lia)) as H1.
  pose proof (N.div_mod (c / 16 / 16) 16 ltac:(lia)) as H2.
  rewrite !N.Div0.div_div in H1, H2.
  change (16 * 16) with 256 in *.
  rewrite N.Div0.div_div in H2. change (256 * 16) with 4096 in *.
  assert (c / 4096 < 16) by (apply N.Div0.div_lt_upper_bound; lia).
  rewrite (N.mod_small (c / 4096) 16) in * by done.
  lia.
Qed.

Lemma parse_literal_unit (c : N) (tail : jstring) :
  32 <= c -> c <> 34 -> c <> 92 ->
  parse_string_body (c :: tail) = cons_unit c (parse_string_body tail).
Proof.
  intros H1 H2 H3. cbn [parse_string_body].
  apply N.eqb_neq in H2, H3. apply N.ltb_ge in H1. by rewrite H2, H3, H1.
Qed.

(** An escaped code unit is read back as that code unit. *)
Lemma parse_quote_unit (c : N) (tail : jstring) :
  parse_string_body (quote_unit c ++ tail)
  = cons_unit c (parse_string_body tail).
Proof.
  unfold quote_unit.
  repeat match goal with
  | |- context [if ?x =? ?y then _ else _] =>
      destruct (x =? y) eqn:?;
      [match goal with H : (_ =? _) = true |- _ =>
         apply N.eqb_eq in H; subst; reflexivity end|]
  end.
  repeat match goal with
  | H : (_ =? _) = false |- _ => apply N.eqb_neq in H
  end.
  destruct ((c <? 32) || is_high_surrogate c || is_low_surrogate c) eqn:E.
  - assert (Hc : c < 65536).
    { unfold is_high_surrogate, is_low_surrogate in E.
      repeat (apply orb_true_iff in E as [E|E]).
      - apply N.ltb_lt in E. lia.
      - apply andb_true_iff in E as [_ E]. apply N.leb_le in E. lia.
      - apply andb_true_iff in E as [_ E]. apply N.leb_le in E. lia. }
    unfold unicode_escape. cbn [app parse_string_body].
    change (92 =? 34) with false. change (92 =? 92) with true.
    change (117 =? 117) with true. cbv iota.
    by rewrite hex4_escape.
  - apply orb_false_iff in E as [E _]. apply orb_false_iff in E as [E _].
    apply N.ltb_ge in E. cbn [app]. by apply parse_literal_unit.
Qed.

Lemma parse_quote_body_aux (n : nat) (s rest : jstring) :
  (length s <= n)%nat ->
  parse_string_body (quote_body s ++ 34 :: rest) = Some (s, rest).
Proof.
  revert s. induction n as [|n IH]; intros s Hlen.
  - destruct s; [done|cbn in Hlen; lia].
  - destruct s as [|c r]; [done|].
    assert (Hstep : parse_string_body ((quote_unit c ++ quote_body r) ++ 34 :: rest)
                    = Some (c :: r, rest)).
    { rewrite <- app_assoc, parse_quote_unit, IH; [done|cbn in Hlen; lia]. }
    cbn [quote_body]. destruct (is_high_surrogate c) eqn:Hh; [|done].
    destruct r as [|d r']; [cbn [quote_body] in Hstep; by rewrite app_nil_r in Hstep|].
    destruct (is_low_surrogate d) eqn:Hl; [|done].
    unfold is_high_surrogate in Hh. unfold is_low_surrogate in Hl.
    apply andb_true_iff in Hh as [Hh _]. apply andb_true_iff in Hl as [Hl _].
    apply N.leb_le in Hh, Hl.
    cbn [app]. rewrite !parse_literal_unit by lia.
    rewrite IH; [done|cbn in Hlen; lia].
Qed.

(** The body of a quoted string, up to its closing quote, is read back
    as the string. *)
Lemma parse_quote_body (s rest : jstring) :
  parse_string_body (quote_body s ++ 34 :: rest) = Some (s, rest).
Proof. by apply (parse_quote_body_aux (length s)). Qed.

End JSONFacts.

(** ** The credential store *)

Module StoreFacts.
Import Obj JSON Async KeyManager ObjFacts JSONFacts.

Lemma stringify_members_cons (k s : jstring) (c : credentials) :
  stringify_members (to_values ((k, s) :: c))
  = (34 :: quote_body k ++ 34 :: 58 :: 34 :: quote_body s ++ [34])
    :: stringify_members (to_values c).
Proof.
  cbn. f_equal. unfold quote. cbn. by rewrite <- !app_assoc.
Qed.

Lemma parse_value_string (f : nat) (r : jstring) :
  parse_value (S f) (34 :: r)
  = match parse_string_body r with
    | Some (str, rest) => Some (JStr str, rest)
    | None => None
    end.
Proof. reflexivity. Qed.

Lemma parse_members_key (f : nat) (r : jstring) (acc : list (jstring * json)) :
  parse_members (S f) (34 :: r) acc
  = match parse_string_body r with
    | None => None
    | Some (k, r1) =>
        match skip_ws r1 with
        | [] => None
        | colon :: r2 =>
            if colon =? 58 then
              match parse_value f r2 with
              | None => None
              | Some (v, r3) =>
                  let acc' := define_own acc k v in
                  match skip_ws r3 with
                  | [] => None
                  | d :: r4 =>
                      if d =? 44 then parse_members f r4 acc'
                      else if d =? 125 then Some (JObj acc', r4)
                      else None
                  end
              end
            else None
        end
    end.
Proof. reflexivity. Qed.

(** One member, a key and a string in quotes with a colon between,
    followed by a comma or the closing brace. *)
Lemma parse_members_step (f : nat) (k s tail : jstring) (d : N)
    (acc : list (jstring * json)) :
  is_ws d = false ->
  parse_members (S (S f))
    ((34 :: quote_body k ++ 34 :: 58 :: 34 :: quote_body s ++ [34])
       ++ d :: tail) acc
  = if d =? 44 then parse_members (S f) tail (define_own acc k (JStr s))
    else if d =? 125 then Some (JObj (define_own acc k (JStr s)), tail)
    else None.
Proof.
  intros Hd.
  replace ((34 :: quote_body k ++ 34 :: 58 :: 34 :: quote_body s ++ [34])
             ++ d :: tail)
    with (34 :: quote_body k ++ 34 :: 58 :: 34 :: quote_body s
             ++ 34 :: d :: tail)
    by (cbn [List.app]; rewrite <- app_assoc; cbn [List.app];
        by rewrite <- app_assoc).
  rewrite parse_members_key, parse_quote_body.
  cbn [skip_ws]. change (is_ws 58) with false. cbv iota.
  change (58 =? 58) with true. cbv iota.
  rewrite parse_value_string, parse_quote_body.
  cbv zeta. cbn [skip_ws]. by rewrite Hd.
Qed.

Lemma stringify_members_nil_iff (c : credentials) :
  stringify_members (to_values c) = [] <-> c = [].
Proof.
  destruct c as [|[k s] c]; [done|]. by rewrite stringify_members_cons.
Qed.

Lemma join_comma_cons (p : jstring) (parts : list jstring) :
  parts <> [] -> join_comma (p :: parts) = p ++ 44 :: join_comma parts.
Proof. by destruct parts. Qed.

(** The members [stringify] wrote are read back, each defined on top
    of what was read before. *)
Lemma parse_members_written (c : credentials) :
  forall (fuel : nat) (acc : list (jstring * json)) (rest : jstring),
  c <> [] -> (length c < fuel)%nat ->
  parse_members fuel
    (join_comma (stringify_members (to_values c)) ++ 125 :: rest) acc
  = Some (JObj (fold_left define_pair (to_json c) acc), rest).
Proof.
  induction c as [|[k s] c IH]; intros fuel acc rest Hne Hfuel; [done|].
  rewrite stringify_members_cons.
  destruct fuel as [|[|f]]; [cbn in Hfuel; lia..|].
  destruct c as [|[k' s'] c'].
  - cbn [to_values fmap list_fmap stringify_members join_comma].
    by rewrite parse_members_step.
  - rewrite join_comma_cons by (by rewrite stringify_members_cons).
    rewrite <- app_assoc.
    rewrite <- (app_comm_cons (join_comma _) _ 44).
    rewrite parse_members_step by done.
    change (44 =? 44) with true. cbv iota.
    rewrite IH; [done|done|cbn in *; lia].
Qed.

Lemma parse_value_object (f : nat) (r : jstring) :
  parse_value (S f) (123 :: r)
  = match skip_ws r with
    | [] => None
    | d :: r' =>
        if d =? 125 then Some (JObj [], r')
        else parse_members f (d :: r') []
    end.
Proof. reflexivity. Qed.

Lemma parse_value_object_members (f : nat) (r x : jstring) :
  skip_ws r = 34 :: x ->
  parse_value (S f) (123 :: r) = parse_members f (34 :: x) [].
Proof. intros H. by rewrite parse_value_object, H. Qed.

Lemma join_comma_written (k s : jstring) (c : credentials) :
  exists x,
    join_comma (stringify_members (to_values ((k, s) :: c))) = 34 :: x.
Proof.
  rewrite stringify_members_cons.
  destruct (stringify_members (to_values c)); cbn; eauto.
Qed.

Lemma join_comma_length (c : credentials) :
  (length c <= length (join_comma (stringify_members (to_values c))))%nat.
Proof.
  induction c as [|[k s] c IH]; [done|].
  rewrite stringify_members_cons.
  destruct c as [|[k' s'] c'].
  - cbn. lia.
  - rewrite join_comma_cons by (by rewrite stringify_members_cons).
    cbn [List.app]. cbn [length] in *. rewrite length_app. cbn [length]. lia.
Qed.

Lemma to_json_keys (c : credentials) : Object_keys (to_json c) = Object_keys c.
Proof.
  unfold Object_keys, to_json. rewrite <- list_fmap_compose.
  apply list_fmap_ext. by intros i [k s] _.
Qed.

Lemma to_json_well_formed (c : credentials) :
  well_formed (to_json c) = well_formed c.
Proof. unfold well_formed. by rewrite to_json_keys. Qed.

Lemma strings_of_to_json (c : credentials) : strings_of (to_json c) = Some c.
Proof.
  induction c as [|[k s] c IH]; [done|]. cbn. fold (to_json c). by rewrite IH.
Qed.

Lemma strings_of_inv (props : list (jstring * json)) (c : credentials) :
  strings_of props = Some c -> props = to_json c.
Proof.
  revert c. induction props as [|[k v] props IH]; intros c H.
  - by injection H as <-.
  - cbn in H. destruct v; try done.
    destruct (strings_of props) as [c'|]; [|done].
    injection H as <-. cbn. f_equal. by apply IH.
Qed.

(** What [JSON.parse] makes of [JSON.stringify(o)]: the properties of
    [o], defined one after the other. *)
Lemma parse_stringify_defines (c : credentials) :
  JSON.parse (JSON.stringify (to_values c))
  = Some (JObj (fold_left define_pair (to_json c) [])).
Proof.
  unfold JSON.parse, JSON.stringify. cbn [List.app].
  destruct c as [|[k s] c]; [done|].
  destruct (join_comma_written k s c) as [x Hx].
  pose proof (join_comma_length ((k, s) :: c)) as Hlen.
  set (J := join_comma (stringify_members (to_values ((k, s) :: c)))) in *.
  assert (Hskip : skip_ws (J ++ [125]) = 34 :: (x ++ [125]))
    by (by rewrite Hx).
  rewrite (parse_value_object_members _ _ _ Hskip), <- Hskip.
  replace (skip_ws (J ++ [125])) with (J ++ [125])
    by (by rewrite Hx).
  unfold J. rewrite parse_members_written; [done|done|].
  fold J. cbn [length] in *. rewrite length_app. cbn [length]. lia.
Qed.

(** [JSON.parse(JSON.stringify(o))] is [o] again. *)
Lemma parse_stringify (c : credentials) :
  well_formed c = true ->
  JSON.parse (JSON.stringify (to_values c)) = Some (JObj (to_json c)).
Proof.
  intros Hwf. rewrite parse_stringify_defines.
  rewrite (define_own_rebuild (to_json c) []); [done|].
  by rewrite app_nil_l, to_json_well_formed.
Qed.

(** *** Every object [JSON.parse] builds is well formed *)

Lemma parse_members_unfold (f : nat) (s : jstring)
    (acc : list (jstring * json)) :
  parse_members (S f) s acc
  = match skip_ws s with
    | [] => None
    | q :: r =>
        if q =? 34 then
          match parse_string_body r with
          | None => None
          | Some (k, r1) =>
              match skip_ws r1 with
              | [] => None
              | colon :: r2 =>
                  if colon =? 58 then
                    match parse_value f r2 with
                    | None => None
                    | Some (v, r3) =>
                        let acc' := define_own acc k v in
                        match skip_ws r3 with
                        | [] => None
                        | d :: r4 =>
                            if d =? 44 then parse_members f r4 acc'
                            else if d =? 125 then Some (JObj acc', r4)
                            else None
                        end
                    end
                  else None
              end
          end
        else None
    end.
Proof. reflexivity. Qed.

Lemma parse_elements_unfold (f : nat) (s : jstring) (acc : list json) :
  parse_elements (S f) s acc
  = match parse_value f s with
    | None => None
    | Some (v, r1) =>
        match skip_ws r1 with
        | [] => None
        | d :: r2 =>
            if d =? 44 then parse_elements f r2 (acc ++ [v])
            else if d =? 93 then Some (JArr (acc ++ [v]), r2)
            else None
        end
    end.
Proof. reflexivity. Qed.

Lemma parse_value_unfold (f : nat) (s : jstring) :
  parse_value (S f) s
  = match skip_ws s with
    | [] => None
    | c :: r =>
        if c =? 123 then
          match skip_ws r with
          | [] => None
          | d :: r' =>
              if d =? 125 then Some (JObj [], r')
              else parse_members f (d :: r') []
          end
        else if c =? 91 then
          match skip_ws r with
          | [] => None
          | d :: r' =>
              if d =? 93 then Some (JArr [], r')
              else parse_elements f (d :: r') []
          end
        else if c =? 34 then
          match parse_string_body r with
          | Some (str, rest) => Some (JStr str, rest)
          | None => None
          end
        else if c =? 116 then expect (js "true") (JBool true) (c :: r)
        else if c =? 102 then expect (js "false") (JBool false) (c :: r)
        else if c =? 110 then expect (js "null") JNull (c :: r)
        else
          match parse_number (c :: r) with
          | Some (n, rest) => Some (JNum n, rest)
          | None => None
          end
    end.
Proof. reflexivity. Qed.

Lemma parse_members_well_formed (fuel : nat) :
  forall (s rest : jstring) (acc : list (jstring * json)) (v : json),
  parse_members fuel s acc = Some (v, rest) ->
  well_formed acc = true ->
  exists props, v = JObj props /\ well_formed props = true.
Proof.
  induction fuel as [|f IH]; intros s rest acc v H Hacc; [done|].
  rewrite parse_members_unfold in H. cbv zeta in H.
  repeat case_match; simplify_eq.
  - eapply IH; [eassumption|by apply define_own_well_formed].
  - eexists. split; [done|by apply define_own_well_formed].
Qed.

Lemma parse_elements_array (fuel : nat) :
  forall (s rest : jstring) (acc : list json) (v : json),
  parse_elements fuel s acc = Some (v, rest) -> exists items, v = JArr items.
Proof.
  induction fuel as [|f IH]; intros s rest acc v H; [done|].
  rewrite parse_elements_unfold in H.
  repeat case_match; simplify_eq; eauto.
Qed.

Lemma expect_value (lit s rest : jstring) (v v' : json) :
  expect lit v s = Some (v', rest) -> v' = v.
Proof. unfold expect. case_match; congruence. Qed.

Lemma parse_value_well_formed (fuel : nat) (s rest : jstring)
    (props : list (jstring * json)) :
  parse_value fuel s = Some (JObj props, rest) -> well_formed props = true.
Proof.
  destruct fuel as [|f]; [done|]. rewrite parse_value_unfold.
  intros H.
  repeat case_match; simplify_eq; try done;
    try (match goal with
         | H : parse_members _ _ _ = Some _ |- _ =>
             apply parse_members_well_formed in H as (? & ? & ?);
             [by simplify_eq|done]
         | H : parse_elements _ _ _ = Some _ |- _ =>
             apply parse_elements_array in H as (? & ?); by simplify_eq
         | H : expect _ _ _ = Some _ |- _ =>
             apply expect_value in H; by simplify_eq
         end).
Qed.

Lemma parse_well_formed (text : jstring) (props : list (jstring * json)) :
  JSON.parse text = Some (JObj props) -> well_formed props = true.
Proof.
  unfold JSON.parse. intros H.
  repeat case_match; simplify_eq. by eapply parse_value_well_formed.
Qed.

(** *** localStorage *)

Lemma storage_keys_distinct : KEYS_STORAGE <> ACTIVE_STORAGE.
Proof. by vm_compute. Qed.

Lemma getItem_setItem (k v : jstring) (st : storage) :
  getItem (setItem k v st) k = Some v.
Proof. unfold getItem, setItem. apply lookup_insert_eq. Qed.

Lemma getItem_setItem_ne (k k' v : jstring) (st : storage) :
  k <> k' -> getItem (setItem k v st) k' = getItem st k'.
Proof. intros H. unfold getItem, setItem. by apply lookup_insert_ne. Qed.

Lemma loadKeys_setActiveKeyName (name : jstring) (st : storage) :
  loadKeys (setActiveKeyName name st) = loadKeys st.
Proof.
  unfold loadKeys, setActiveKeyName.
  rewrite getItem_setItem_ne; [done|]. apply not_eq_sym, storage_keys_distinct.
Qed.

Lemma getActiveKeyName_saveKeys (keys : credentials) (st : storage) :
  getActiveKeyName (saveKeys keys st) = getActiveKeyName st.
Proof.
  unfold getActiveKeyName, saveKeys.
  rewrite getItem_setItem_ne; [done|]. apply storage_keys_distinct.
Qed.

Lemma getActiveKeyName_setActiveKeyName (name : jstring) (st : storage) :
  getActiveKeyName (setActiveKeyName name st) = name.
Proof.
  unfold getActiveKeyName, setActiveKeyName. rewrite getItem_setItem.
  by destruct name.
Qed.

Lemma loadKeys_saveKeys (keys : credentials) (st : storage) :
  well_formed keys = true -> loadKeys (saveKeys keys st) = JObj (to_json keys).
Proof.
  intros Hwf. unfold loadKeys, saveKeys. rewrite getItem_setItem.
  change (default (js "null") (Some ?x)) with x.
  by rewrite parse_stringify.
Qed.

Lemma loadCredentials_saveKeys (keys : credentials) (st : storage) :
  well_formed keys = true -> loadCredentials (saveKeys keys st) = Some keys.
Proof.
  intros Hwf. unfold loadCredentials. rewrite loadKeys_saveKeys by done.
  apply strings_of_to_json.
Qed.

Lemma loadKeys_well_formed (st : storage) (props : list (jstring * json)) :
  loadKeys st = JObj props -> well_formed props = true.
Proof.
  unfold loadKeys. destruct (JSON.parse _) as [v|] eqn:E.
  - destruct (JSON.truthy v).
    + intros ->. by eapply parse_well_formed.
    + by intros [= <-].
  - by intros [= <-].
Qed.

(** A credential set read from the storage is a well-formed object. *)
Lemma loadCredentials_well_formed (st : storage) (keys : credentials) :
  loadCredentials st = Some keys -> well_formed keys = true.
Proof.
  unfold loadCredentials, as_credentials.
  destruct (loadKeys st) as [| | | | |props] eqn:E; try done.
  intros H. apply strings_of_inv in H. subst.
  apply loadKeys_well_formed in E. by rewrite to_json_well_formed in E.
Qed.

Lemma loadCredentials_setActiveKeyName (name : jstring) (st : storage) :
  loadCredentials (setActiveKeyName name st) = loadCredentials st.
Proof. unfold loadCredentials. by rewrite loadKeys_setActiveKeyName. Qed.

End StoreFacts.

(** ** JSON.parse: the fuel is enough *)

Module ParserFacts.
Import Obj JSON ObjFacts JSONFacts StoreFacts.

Lemma skip_ws_length (s : jstring) : (length (skip_ws s) <= length s)%nat.
Proof.
  induction s as [|c r IH]; [done|]. cbn. destruct (is_ws c); cbn; lia.
Qed.

Lemma cons_unit_inv (c : N) (r : option (jstring * jstring)) (k rest : jstring) :
  cons_unit c r = Some (k, rest) -> exists k', r = Some (k', rest).
Proof. destruct r as [[k' rest']|]; [|done]. intros [= <- <-]. eauto. Qed.

Lemma parse_string_body_length_aux (n : nat) :
  forall s k rest, (length s <= n)%nat ->
  parse_string_body s = Some (k, rest) -> (length rest < length s)%nat.
Proof.
  induction n as [|n IH]; intros s k rest Hn H.
  - destruct s; [done|cbn in Hn; lia].
  - destruct s as [|c r]; [done|]. cbn [parse_string_body] in H. cbn [length] in *.
    destruct (c =? 34); [injection H as <- <-; lia|].
    destruct (c =? 92).
    + destruct r as [|e r1]; [done|]. cbn [length] in *.
      destruct (e =? 117).
      * destruct r1 as [|h1 [|h2 [|h3 [|h4 r2]]]]; try done.
        destruct (hex4 h1 h2 h3 h4); [|done].
        apply cons_unit_inv in H as [k' H]. apply IH in H; cbn [length] in *; lia.
      * destruct (simple_escape e); [|done].
        apply cons_unit_inv in H as [k' H]. apply IH in H; lia.
    + destruct (c <? 32); [done|].
      apply cons_unit_inv in H as [k' H]. apply IH in H; lia.
Qed.

Lemma parse_string_body_length (s k rest : jstring) :
  parse_string_body s = Some (k, rest) -> (length rest < length s)%nat.
Proof. by apply (parse_string_body_length_aux (length s)). Qed.

Lemma parse_digits_length (s : jstring) :
  forall acc count v count' rest,
  parse_digits s acc count = (v, count', rest) -> (length rest <= length s)%nat.
Proof.
  induction s as [|c r IH]; intros acc count v count' rest H; cbn in H.
  - by injection H as <- <- <-.
  - destruct (is_digit c).
    + apply IH in H. cbn. lia.
    + by injection H as <- <- <-.
Qed.

Lemma parse_int_length (s rest : jstring) (i : N) :
  parse_int s = Some (i, rest) -> (length rest < length s)%nat.
Proof.
  unfold parse_int. destruct s as [|c r]; [done|].
  destruct (c =? 48); [intros [= <- <-]; cbn; lia|].
  destruct (is_digit c); [|done].
  destruct (parse_digits r (c - 48) 0) as [[v cnt] rest'] eqn:E.
  intros [= <- <-]. apply parse_digits_length in E. cbn. lia.
Qed.

Lemma parse_frac_length (m : N) (s rest : jstring) (v : N) (fd : nat) :
  parse_frac m s = Some (v, fd, rest) -> (length rest <= length s)%nat.
Proof.
  unfold parse_frac.
  destruct s as [|c r]; [by intros [= <- <- <-]|].
  destruct (c =? 46); [|by intros [= <- <- <-]].
  destruct (parse_digits r m 0) as [[v' cnt] rest'] eqn:E.
  destruct cnt; [done|]. intros [= <- <- <-].
  apply parse_digits_length in E. cbn. lia.
Qed.

Lemma parse_sign_length (s rest : jstring) (sign : bool) :
  parse_sign s = (sign, rest) -> (length rest <= length s)%nat.
Proof.
  unfold parse_sign. destruct s as [|c r]; [by intros [= <- <-]|].
  destruct (c =? 43); [intros [= <- <-]; cbn; lia|].
  destruct (c =? 45); intros [= <- <-]; cbn; lia.
Qed.

Lemma parse_exp_length (s rest : jstring) (e : Z) :
  parse_exp s = Some (e, rest) -> (length rest <= length s)%nat.
Proof.
  unfold parse_exp. destruct s as [|c r]; [by intros [= <- <-]|].
  destruct ((c =? 101) || (c =? 69)); [|by intros [= <- <-]].
  destruct (parse_sign r) as [sign r1] eqn:Es.
  destruct (parse_digits r1 0 0) as [[v cnt] rest'] eqn:E.
  destruct cnt; [done|]. intros [= <- <-].
  apply parse_sign_length in Es. apply parse_digits_length in E. cbn. lia.
Qed.

Lemma parse_number_length (s rest : jstring) (n : number) :
  parse_number s = Some (n, rest) -> (length rest < length s)%nat.
Proof.
  unfold parse_number.
  set (p := match s with [] => _ | _ :: _ => _ end).
  assert (Hp : (length p.2 <= length s)%nat).
  { unfold p. destruct s as [|c r]; [done|]. destruct (c =? 45); cbn; lia. }
  destruct p as [sign s1]. cbn in Hp.
  destruct (parse_int s1) as [[i s2]|] eqn:E1; [|done].
  destruct (parse_frac i s2) as [[[m fd] s3]|] eqn:E2; [|done].
  destruct (parse_exp s3) as [[e s4]|] eqn:E3; [|done].
  intros [= <- <-].
  apply parse_int_length in E1. apply parse_frac_length in E2.
  apply parse_exp_length in E3. lia.
Qed.

Lemma starts_with_length (p s : jstring) :
  starts_with p s = true -> (length p <= length s)%nat.
Proof.
  revert s. induction p as [|a p IH]; intros [|b s]; cbn; try done; try lia.
  intros H. apply andb_true_iff in H as [_ H]. apply IH in H. lia.
Qed.

Lemma expect_length (lit s rest : jstring) (v v' : json) :
  lit <> [] -> expect lit v s = Some (v', rest) ->
  (length rest < length s)%nat.
Proof.
  unfold expect. intros Hlit. destruct (starts_with lit s) eqn:E; [|done].
  intros [= <- <-]. apply starts_with_length in E. rewrite length_drop.
  destruct lit; [done|]. cbn in *. lia.
Qed.

(** What a successful parse consumed bounds the fuel it needs. *)
Lemma parse_fuel (fuel : nat) :
  (forall s v rest,
     parse_value fuel s = Some (v, rest) ->
     (length rest < length s)%nat /\
     forall f', (length s - length rest <= f')%nat ->
                parse_value f' s = Some (v, rest)) /\
  (forall s acc v rest,
     parse_members fuel s acc = Some (v, rest) ->
     (length rest < length s)%nat /\
     forall f', (length s - length rest <= f')%nat ->
                parse_members f' s acc = Some (v, rest)) /\
  (forall s acc v rest,
     parse_elements fuel s acc = Some (v, rest) ->
     (length rest < length s)%nat /\
     forall f', (length s - length rest <= f')%nat ->
                parse_elements f' s acc = Some (v, rest)).
Proof.
  induction fuel as [|f (IHv & IHm & IHe)]; [done|].
  split; [|split].
  - intros s v rest H. rewrite parse_value_unfold in H.
    pose proof (skip_ws_length s) as Hs.
    destruct (skip_ws s) as [|c r] eqn:Es; [done|]. cbn [length] in Hs.
    assert (Hgo : forall f',
      (length rest < length s)%nat ->
      (forall f'', (S f'' = f') -> parse_value (S f'') s = Some (v, rest)) ->
      (length s - length rest <= f')%nat -> parse_value f' s = Some (v, rest)).
    { intros [|f''] Hl Hf Hle; [lia|]. by apply Hf. }
    destruct (c =? 123) eqn:E1.
    { pose proof (skip_ws_length r) as Hr.
      destruct (skip_ws r) as [|d r'] eqn:Er; [done|]. cbn [length] in Hr.
      destruct (d =? 125) eqn:E2.
      - injection H as <- <-. split; [lia|]. intros f' Hf. apply Hgo; [lia| |done].
        intros f'' _. by rewrite parse_value_unfold, Es, E1, Er, E2.
      - apply IHm in H as [Hl Hm]. cbn [length] in *. split; [lia|].
        intros f' Hf. apply Hgo; [lia| |done].
        intros f'' <-. rewrite parse_value_unfold, Es, E1, Er, E2.
        apply Hm. cbn [length]. lia. }
    destruct (c =? 91) eqn:E2.
    { pose proof (skip_ws_length r) as Hr.
      destruct (skip_ws r) as [|d r'] eqn:Er; [done|]. cbn [length] in Hr.
      destruct (d =? 93) eqn:E3.
      - injection H as <- <-. split; [lia|]. intros f' Hf. apply Hgo; [lia| |done].
        intros f'' _. by rewrite parse_value_unfold, Es, E1, E2, Er, E3.
      - apply IHe in H as [Hl Hm]. cbn [length] in *. split; [lia|].
        intros f' Hf. apply Hgo; [lia| |done].
        intros f'' <-. rewrite parse_value_unfold, Es, E1, E2, Er, E3.
        apply Hm. cbn [length]. lia. }
    assert (Hl : (length rest < length (c :: r))%nat).
    { destruct (c =? 34).
      - destruct (parse_string_body r) as [[str rest']|] eqn:Ep; [|done].
        injection H as <- <-. apply parse_string_body_length in Ep. cbn. lia.
      - destruct (c =? 116); [by eapply expect_length; [|exact H]|].
        destruct (c =? 102); [by eapply expect_length; [|exact H]|].
        destruct (c =? 110); [by eapply expect_length; [|exact H]|].
        destruct (parse_number (c :: r)) as [[n rest']|] eqn:Ep; [|done].
        injection H as <- <-. by apply parse_number_length in Ep. }
    cbn [length] in Hl. split; [lia|].
    intros f' Hf. apply Hgo; [lia| |done].
    intros f'' _. by rewrite parse_value_unfold, Es, E1, E2.
  - intros s acc v rest H. rewrite parse_members_unfold in H.
    pose proof (skip_ws_length s) as Hs.
    destruct (skip_ws s) as [|q r] eqn:Es; [done|]. cbn [length] in Hs.
    destruct (q =? 34) eqn:E1; [|done].
    destruct (parse_string_body r) as [[k r1]|] eqn:Ek; [|done].
    pose proof (parse_string_body_length _ _ _ Ek) as Hk.
    pose proof (skip_ws_length r1) as Hr1.
    destruct (skip_ws r1) as [|colon r2] eqn:Er1; [done|]. cbn [length] in Hr1.
    destruct (colon =? 58) eqn:E2; [|done].
    destruct (parse_value f r2) as [[v0 r3]|] eqn:Ev; [|done].
    apply IHv in Ev as [Hv Hv']. cbv zeta in H.
    pose proof (skip_ws_length r3) as Hr3.
    destruct (skip_ws r3) as [|d r4] eqn:Er3; [done|]. cbn [length] in Hr3.
    assert (Hgo : forall rest',
      (length rest' <= length r4)%nat ->
      (forall f'', (length r4 - length rest' <= f'')%nat ->
         (if d =? 44 then parse_members f'' r4 (define_own acc k v0)
          else if d =? 125 then Some (JObj (define_own acc k v0), r4)
          else None) = Some (v, rest')) ->
      forall f', (length s - length rest' <= f')%nat ->
                 parse_members f' s acc = Some (v, rest')).
    { intros rest' Hle Hf [|f''] Hf'; [lia|].
      rewrite parse_members_unfold, Es, E1, Ek, Er1, E2.
      rewrite Hv' by lia. cbv zeta. rewrite Er3. apply Hf. lia. }
    destruct (d =? 44) eqn:E3.
    + apply IHm in H as [Hl Hm]. split; [lia|]. apply Hgo; [lia|done].
    + destruct (d =? 125) eqn:E4; [|done]. injection H as <- <-.
      split; [lia|]. apply Hgo; [lia|done].
  - intros s acc v rest H. rewrite parse_elements_unfold in H.
    destruct (parse_value f s) as [[v0 r1]|] eqn:Ev; [|done].
    apply IHv in Ev as [Hv Hv'].
    pose proof (skip_ws_length r1) as Hr1.
    destruct (skip_ws r1) as [|d r2] eqn:Er1; [done|]. cbn [length] in Hr1.
    assert (Hgo : forall rest',
      (length rest' <= length r2)%nat ->
      (forall f'', (length r2 - length rest' <= f'')%nat ->
         (if d =? 44 then parse_elements f'' r2 (acc ++ [v0])
          else if d =? 93 then Some (JArr (acc ++ [v0]), r2)
          else None) = Some (v, rest')) ->
      forall f', (length s - length rest' <= f')%nat ->
                 parse_elements f' s acc = Some (v, rest')).
    { intros rest' Hle Hf [|f''] Hf'; [lia|].
      rewrite parse_elements_unfold. rewrite Hv' by lia. rewrite Er1.
      apply Hf. lia. }
    destruct (d =? 44) eqn:E3.
    + apply IHe in H as [Hl Hm]. split; [lia|]. apply Hgo; [lia|done].
    + destruct (d =? 93) eqn:E4; [|done]. injection H as <- <-.
      split; [lia|]. apply Hgo; [lia|done].
Qed.

(** A text that parses with some fuel parses with the fuel
    [JSON.parse] gives it: running out of fuel never stands in for a
    SyntaxError. *)
Lemma parse_value_fuel_enough (fuel : nat) (text : jstring) (v : json)
    (rest : jstring) :
  parse_value fuel text = Some (v, rest) ->
  parse_value (S (length text)) text = Some (v, rest).
Proof.
  intros H. destruct (parse_fuel fuel) as (Hv & _ & _).
  apply Hv in H as [_ H]. apply H. lia.
Qed.

(** [JSON.parse] rejects a text only if no amount of fuel would have
    read it as one value and nothing else. *)
Lemma parse_none_any_fuel (text : jstring) :
  JSON.parse text = None ->
  forall fuel v rest,
    parse_value fuel text = Some (v, rest) -> skip_ws rest <> [].
Proof.
  unfold JSON.parse. intros Hnone fuel v rest H.
  apply parse_value_fuel_enough in H. rewrite H in Hnone.
  by destruct (skip_ws rest).
Qed.

End ParserFacts.

(** ** Running asynchronous functions *)

Module AsyncFacts.
Import Obj JSON Async KeyManager ObjFacts StoreFacts.

Section Run.
Context {Arg Res : Type}.
Implicit Types (e : env Arg Res) (st : storage).

(** [await t; f(...)] runs [t] to its end and, unless [t] rejected,
    goes on with [f]. *)
Lemma run_task_bind {A B : Type} e (t : task Arg Res A)
    (f : A -> task Arg Res B) :
  run e (task_bind t f) =
  match run e t with
  | (tr, Fulfilled a) => let '(tr', o) := run e (f a) in (tr ++ tr', o)
  | (tr, Rejected x) => (tr, Rejected x)
  end.
Proof.
  induction t as [r|x|req k IH|msg x k IH|args k IH]; cbn.
  - by destruct (run e (f r)).
  - done.
  - rewrite IH. destruct (run e (k (net e req))) as [tr [a|x]]; [|done].
    by destruct (run e (f a)).
  - rewrite IH. destruct (run e k) as [tr [a|y]]; [|done].
    by destruct (run e (f a)).
  - rewrite IH. destruct (run e (k (host e args))) as [tr [a|x]]; [|done].
    by destruct (run e (f a)).
Qed.

Lemma run_origQueue e (args : list Arg) :
  run e (OrigQueue args settle_as)
  = ([EvOrigQueue args; EvOrigQueueSettled (host e args)], host e args).
Proof. cbn. by destruct (host e args). Qed.

(** The run of one push: nothing when there is no key to send, else
    the request, its settlement and, after a rejection, the log line;
    the promise is fulfilled in every case. *)
Lemma pushActiveKeyToServer_run e st (keys : credentials) :
  loadCredentials st = Some keys ->
  exists push,
    pushActiveKeyToServer st = Some push /\
    run e push
    = (let name := getActiveKeyName st in
       let key := Obj.get keys name in
       if negb (Obj.truthy key) then []
       else
         match net e (set_key_request key name) with
         | Fulfilled r =>
             [EvFetch (set_key_request key name); EvFetchSettled (Fulfilled r)]
         | Rejected x =>
             [EvFetch (set_key_request key name); EvFetchSettled (Rejected x);
              EvConsoleError push_failed x]
         end,
       Fulfilled tt).
Proof.
  intros Hload. unfold pushActiveKeyToServer. rewrite Hload.
  eexists. split; [done|]. cbv zeta.
  destruct (negb (Obj.truthy _)); [done|]. cbn.
  by destruct (net e _).
Qed.

(** The patched [queuePrompt]: the whole run of the push, then the
    host's own function on the same arguments, and its result. *)
Lemma queuePrompt_hooked_run e st (keys : credentials) (args : list Arg) :
  loadCredentials st = Some keys ->
  exists push call tr,
    pushActiveKeyToServer st = Some push /\
    run e push = (tr, Fulfilled tt) /\
    queuePrompt (installQueueHook (App false origQueue)) args st = Some call /\
    run e call
    = (tr ++ [EvOrigQueue args; EvOrigQueueSettled (host e args)],
       host e args).
Proof.
  intros Hload.
  destruct (pushActiveKeyToServer_run e st keys Hload) as (push & Hpush & Hrun).
  eexists push, _, _. split; [done|]. split; [exact Hrun|].
  cbn. rewrite Hpush. split; [done|].
  rewrite run_task_bind, Hrun. by rewrite run_origQueue.
Qed.

(** Without an own property of the active name, and with a name that
    [Object.prototype] does not know either, the push does nothing. *)
Lemma pushActiveKeyToServer_no_key st (keys : credentials) :
  loadCredentials st = Some keys ->
  own_get keys (getActiveKeyName st) = None ->
  inherited (getActiveKeyName st) = VUndefined ->
  pushActiveKeyToServer (Arg := Arg) (Res := Res) st = Some (Return tt).
Proof.
  intros Hload Hown Hinh. unfold pushActiveKeyToServer, Obj.get.
  by rewrite Hload, Hown, Hinh.
Qed.

(** A second [installQueueHook] changes nothing: the flag is set. *)
Lemma installQueueHook_idempotent (a : app Arg Res) :
  installQueueHook (installQueueHook a) = installQueueHook a.
Proof. unfold installQueueHook. by destruct (hooked a) eqn:E; cbn; rewrite ?E. Qed.

End Run.
End AsyncFacts.

(** ** The dialog and the selector *)

Module DialogFacts.
Import Obj JSON Async KeyManager ObjFacts StoreFacts.

Lemma own_get_elem (keys : credentials) (n s : jstring) :
  well_formed keys = true -> (n, s) ∈ keys -> own_get keys n = Some s.
Proof.
  unfold well_formed.
  induction keys as [|[k v] rest IH]; intros Hwf Hin.
  - by apply elem_of_nil in Hin.
  - cbn in Hwf. apply andb_true_iff in Hwf as [H1 H2].
    apply elem_of_cons in Hin as [[= -> ->]|Hin]; cbn.
    + by rewrite str_eqb_refl.
    + destruct (str_eqb k n) eqn:E; [|by apply IH].
      apply str_eqb_true in E. subst.
      apply ordered_keys_forall in H1. exfalso. apply H1.
      apply list_elem_of_fmap. by exists (n, s).
Qed.

Lemma render_rows_listed (keys part : credentials) :
  (forall n s, (n, s) ∈ part -> own_get keys n = Some s) ->
  render_rows keys (Object_keys part)
  = Some ((fun kv => {| info := kv.1 ++ js "  (" ++ (slice0 8 kv.2 ++ js "...")
                                  ++ js ")";
                        remove_name := kv.1 |}) <$> part).
Proof.
  induction part as [|[n s] part IH]; intros H; [done|].
  cbn [Object_keys fmap list_fmap fst render_rows].
  fold (Object_keys part). rewrite IH.
  - unfold render_row, Obj.get. rewrite (H n s) by left. done.
  - intros n' s' Hin. apply H. by right.
Qed.

(** What the dialog lists for a credential set. *)
Lemma render_listing (st : storage) (keys : credentials) :
  loadCredentials st = Some keys ->
  render st
  = Some match keys with
         | [] => NoKeysSaved
         | _ :: _ =>
             Rows ((fun kv =>
                      {| info := kv.1 ++ js "  (" ++ (slice0 8 kv.2 ++ js "...")
                                   ++ js ")";
                         remove_name := kv.1 |}) <$> keys)
         end.
Proof.
  intros Hload. unfold render. rewrite Hload.
  destruct keys as [|[n s] keys]; [done|].
  pose proof (loadCredentials_well_formed _ _ Hload) as Hwf.
  change (Object_keys ((n, s) :: keys)) with (n :: Object_keys keys).
  cbv iota.
  change (n :: Object_keys keys) with (Object_keys ((n, s) :: keys)).
  rewrite render_rows_listed; [done|].
  intros n' s' Hin. by apply own_get_elem.
Qed.

Lemma find_widget_assign (name : jstring) (values : list jstring) (v : value)
    (ws : list widget) (w : widget) :
  find_widget name ws = Some w ->
  find_widget name (assign_widget name values v ws)
  = Some {| w_name := w_name w; w_value := v; w_values := values |}.
Proof.
  unfold find_widget.
  induction ws as [|w0 ws IH]; [done|].
  cbn. destruct (str_eqb (w_name w0) name) eqn:E.
  - intros [= <-]. cbn. by rewrite E.
  - intros H. cbn. rewrite E. by apply IH.
Qed.

(** What [refreshNodeWidgets] leaves in the selector. *)
Lemma refreshNodeWidgets_selector (nd : node) (ws : list widget) (w : widget)
    (st : storage) (keys : credentials) :
  loadCredentials st = Some keys ->
  widgets nd = Some ws ->
  find_widget KEY_SELECTOR ws = Some w ->
  exists nd' ws' w',
    refreshNodeWidgets (Some nd) st = Some (Some nd') /\
    widgets nd' = Some ws' /\
    find_widget KEY_SELECTOR ws' = Some w' /\
    w_values w' = match Object_keys keys with
                  | [] => [NO_KEYS]
                  | _ :: _ => Object_keys keys
                  end /\
    w_value w' = (if array_includes (Object_keys keys) (getActiveKeyName st)
                  then VString (getActiveKeyName st)
                  else first_of (w_values w')).
Proof.
  intros Hload Hws Hfind. unfold refreshNodeWidgets.
  rewrite Hload, Hws, Hfind.
  eexists _, _, _. split; [done|]. cbn [widgets]. split; [done|].
  split; [by apply find_widget_assign|]. done.
Qed.

Lemma refreshNodeWidgets_total (nd : option node) (st : storage)
    (keys : credentials) :
  loadCredentials st = Some keys ->
  exists nd', refreshNodeWidgets nd st = Some nd'.
Proof.
  intros Hload. unfold refreshNodeWidgets. rewrite Hload.
  destruct nd; eauto.
Qed.

Lemma rerender_total (st : storage) (nd : option node) (keys : credentials) :
  loadCredentials st = Some keys ->
  exists u, rerender st nd = Some u /\ store u = st /\
            render st = Some (dialog u) /\
            refreshNodeWidgets nd st = Some (bound u).
Proof.
  intros Hload. unfold rerender.
  rewrite (render_listing st keys Hload).
  destruct (refreshNodeWidgets_total nd st keys Hload) as [nd' ->].
  by eexists.
Qed.

(** The Remove button: the storage it leaves, re-rendered and with the
    selector refreshed from it. *)
Lemma del_onclick_store (n : jstring) (u : ui) (keys : credentials) :
  loadCredentials (store u) = Some keys ->
  exists u',
    del_onclick n u = Some u' /\
    store u' = (let st := saveKeys (delete_own keys n) (store u) in
                if str_eqb (getActiveKeyName st) n
                then setActiveKeyName [] st else st) /\
    loadCredentials (store u') = Some (delete_own keys n) /\
    render (store u') = Some (dialog u') /\
    refreshNodeWidgets (bound u) (store u') = Some (bound u').
Proof.
  intros Hload. unfold del_onclick. rewrite Hload.
  pose proof (loadCredentials_well_formed _ _ Hload) as Hwf.
  pose proof (delete_own_well_formed keys n Hwf) as Hwf'.
  set (st' := if str_eqb _ n then _ else _).
  assert (Hload' : loadCredentials st' = Some (delete_own keys n)).
  { unfold st'. destruct (str_eqb _ n).
    - rewrite loadCredentials_setActiveKeyName.
      by apply loadCredentials_saveKeys.
    - by apply loadCredentials_saveKeys. }
  destruct (rerender_total st' (bound u) _ Hload') as (u' & Hu & Hst & Hr & Hb).
  exists u'. rewrite Hst. done.
Qed.

(** The Add button when both inputs hold something after trimming. *)
Lemma addBtn_onclick_store (nameInput keyInput : jstring) (u : ui)
    (keys : credentials) :
  loadCredentials (store u) = Some keys ->
  trim nameInput <> [] -> trim keyInput <> [] ->
  well_formed (Obj.set keys (trim nameInput) (trim keyInput)) = true ->
  exists u',
    addBtn_onclick nameInput keyInput u = Some u' /\
    store u' = saveKeys (Obj.set keys (trim nameInput) (trim keyInput))
                 (store u) /\
    loadCredentials (store u')
    = Some (Obj.set keys (trim nameInput) (trim keyInput)) /\
    render (store u') = Some (dialog u') /\
    refreshNodeWidgets (bound u) (store u') = Some (bound u').
Proof.
  intros Hload Hn Hk Hwf. unfold addBtn_onclick.
  destruct (trim nameInput) as [|a n] eqn:En; [done|].
  destruct (trim keyInput) as [|b k] eqn:Ek; [done|].
  cbn [truthy_string negb orb]. rewrite Hload.
  pose proof (loadCredentials_saveKeys _ (store u) Hwf) as Hload'.
  destruct (rerender_total _ (bound u) _ Hload') as (u' & Hu & Hst & Hr & Hb).
  exists u'. rewrite Hst. done.
Qed.

Lemma set_well_formed (keys : credentials) (n k : jstring) :
  well_formed keys = true -> well_formed (Obj.set keys n k) = true.
Proof.
  intros Hwf. unfold Obj.set. destruct (has_own keys n).
  - by apply update_own_well_formed.
  - destruct (str_eqb n proto_name); [done|]. by apply define_own_well_formed.
Qed.

End DialogFacts.

(** ** The definitions at work *)

Module Examples.
Import Obj JSON Async KeyManager.

Example parse_nested :
  JSON.parse (js " { } ") = Some (JObj []) /\
  JSON.parse (js "[1, -2.50e+3, true, null, []]")
  = Some (JArr [JNum (Number false 1 0); JNum (Number true 250 1);
                JBool true; JNull; JArr []]) /\
  JSON.parse (js "{1}") = None /\
  JSON.parse (js "[1,]") = None /\
  JSON.parse (js "01") = None /\
  JSON.parse (js "nul") = None /\
  JSON.parse (js "") = None.
Proof. repeat split; by vm_compute. Qed.

(** Keys come out in the order [Object.keys] has: array indices first
    and ascending, a repeated key at its first place with its last
    value. *)
Example parse_key_order :
  JSON.parse
    (js "{" ++ quote (js "b") ++ js ":" ++ quote (js "x") ++ js ","
        ++ quote (js "10") ++ js ":" ++ quote (js "y") ++ js ","
        ++ quote (js "2") ++ js ":" ++ quote (js "z") ++ js ","
        ++ quote (js "b") ++ js ":" ++ quote (js "w") ++ js "}")
  = Some (JObj [(js "2", JStr (js "z")); (js "10", JStr (js "y"));
                (js "b", JStr (js "w"))]).
Proof. by vm_compute. Qed.

Example falsy_values :
  JSON.truthy <$> JSON.parse (js "0.000") = Some false /\
  JSON.truthy <$> JSON.parse (js "-0") = Some false /\
  JSON.truthy <$> JSON.parse (js "1e-400") = Some false /\
  JSON.truthy <$> JSON.parse (js "5e-324") = Some true /\
  JSON.truthy <$> JSON.parse (quote []) = Some false /\
  JSON.truthy <$> JSON.parse (js "false") = Some false /\
  JSON.truthy <$> JSON.parse (js "[]") = Some true.
Proof. repeat split; by vm_compute. Qed.

Example quote_escapes :
  quote (js "a" ++ [34; 92; 10; 7] ++ js "b")
  = [34] ++ js "a\" ++ [34] ++ js "\\\n\u0007b" ++ [34] /\
  quote [55357; 56832] = [34; 55357; 56832; 34] /\
  quote [56832; 55357] = [34] ++ js "\ude00\ud83d" ++ [34].
Proof. repeat split; by vm_compute. Qed.

Example trim_strips_both_ends :
  trim ([32; 9; 160; 8232] ++ js "my key" ++ [10; 65279]) = js "my key" /\
  trim (js "   ") = [].
Proof. split; by vm_compute. Qed.

Example loadKeys_of_empty_storage : loadKeys ∅ = JObj [].
Proof. by vm_compute. Qed.

(** The scenario of the specification: with [prod] stored and active,
    the push sends its secret and its name. *)
Example scenario_push :
  (run scenario_env <$> pushActiveKeyToServer scenario_store)
  = Some ([EvFetch
             {| url := js "/fal-api/set-key";
                method := js "POST";
                headers := [(js "Content-Type", js "application/json")];
                body := js "{" ++ quote (js "key") ++ js ":"
                          ++ quote (js "fal-aaa111") ++ js ","
                          ++ quote (js "name") ++ js ":"
                          ++ quote (js "prod") ++ js "}" |};
           EvFetchSettled (Rejected (js "Failed to fetch"));
           EvConsoleError push_failed (js "Failed to fetch")],
          Fulfilled tt).
Proof. by vm_compute. Qed.

(** A new name that is an array index goes before the other names;
    [__proto__] cannot be added at all. *)
Example add_orders_names :
  (Object_keys <$>
     (addBtn_onclick (js "7") (js "fal-ddd444") scenario_ui
      ≫= fun u => loadCredentials (store u)))
  = Some [js "7"; js "prod"] /\
  (addBtn_onclick (js "__proto__") (js "fal-ddd444") scenario_ui
   ≫= fun u => loadCredentials (store u))
  = Some scenario_keys.
Proof. split; by vm_compute. Qed.

End Examples.

(** * The claims *)

Import Obj JSON Async KeyManager.
Import ObjFacts JSONFacts StoreFacts AsyncFacts DialogFacts.

(** C1.  Whatever the arguments, whatever the server answers and
    whatever the host's function does: a call of the patched
    [app.queuePrompt] first runs [pushActiveKeyToServer] to its end,
    request settled and failure logged, and only then calls the original
    function, with the arguments it was given; what the original
    function gives is what the patched one gives. *)
Theorem queuePrompt_awaits_push_then_forwards {Arg Res : Type}
    (e : env Arg Res) (args : list Arg) (st : storage) (keys : credentials) :
  loadCredentials st = Some keys ->
  exists push call tr,
    pushActiveKeyToServer st = Some push /\
    run e push = (tr, Fulfilled tt) /\
    queuePrompt (installQueueHook (App false origQueue)) args st = Some call /\
    run e call
    = (tr ++ [EvOrigQueue args; EvOrigQueueSettled (host e args)],
       host e args).
Proof. apply queuePrompt_hooked_run. Qed.

Lemma queuePrompt_awaits_push_then_forwards_witness :
  loadCredentials scenario_store = Some scenario_keys /\
  exists push call tr,
    pushActiveKeyToServer scenario_store = Some push /\
    run scenario_env push = (tr, Fulfilled tt) /\
    queuePrompt (installQueueHook (App false origQueue)) [7%nat; 1%nat]
      scenario_store = Some call /\
    run scenario_env call
    = (tr ++ [EvOrigQueue [7%nat; 1%nat]; EvOrigQueueSettled (Fulfilled 2%nat)],
       Fulfilled 2%nat).
Proof.
  split; [by vm_compute|].
  apply (queuePrompt_awaits_push_then_forwards scenario_env [7%nat; 1%nat]
           scenario_store scenario_keys).
  by vm_compute.
Defined.

(** C2.  The Remove button of the line for [n]: afterwards the stored
    set is the one before without [n], every other entry as it was;
    the active name is empty if it was [n], and the stored active name
    is not written at all if it was another. *)
Theorem del_onclick_removes_entry (n : jstring) (u : ui) (keys : credentials) :
  loadCredentials (store u) = Some keys ->
  exists u',
    del_onclick n u = Some u' /\
    loadCredentials (store u') = Some (delete_own keys n) /\
    own_get (delete_own keys n) n = None /\
    (forall k, k <> n -> own_get (delete_own keys n) k = own_get keys k) /\
    (getActiveKeyName (store u) = n -> getActiveKeyName (store u') = []) /\
    (getActiveKeyName (store u) <> n ->
     getItem (store u') ACTIVE_STORAGE = getItem (store u) ACTIVE_STORAGE /\
     getActiveKeyName (store u') = getActiveKeyName (store u)).
Proof.
  intros Hload.
  pose proof (loadCredentials_well_formed _ _ Hload) as Hwf.
  destruct (del_onclick_store n u keys Hload) as (u' & Hdel & Hst & Hload' & _).
  exists u'. split; [done|]. split; [done|].
  split; [by apply delete_own_gone|].
  split; [intros k Hk; by apply delete_own_other|].
  cbv zeta in Hst. rewrite getActiveKeyName_saveKeys in Hst. split.
  - intros Hact. rewrite Hact, str_eqb_refl in Hst. rewrite Hst.
    apply getActiveKeyName_setActiveKeyName.
  - intros Hact. apply str_eqb_false in Hact. rewrite Hact in Hst. rewrite Hst.
    split; [|apply getActiveKeyName_saveKeys].
    unfold saveKeys. apply getItem_setItem_ne, storage_keys_distinct.
Qed.

Lemma del_onclick_removes_entry_witness :
  loadCredentials (store scenario_ui) = Some scenario_keys /\
  exists u',
    del_onclick (js "prod") scenario_ui = Some u' /\
    loadCredentials (store u') = Some [] /\
    getActiveKeyName (store u') = [].
Proof.
  split; [by vm_compute|].
  destruct (del_onclick_removes_entry (js "prod") scenario_ui scenario_keys)
    as (u' & Hdel & Hload & _ & _ & Hact & _); [by vm_compute|].
  exists u'. split; [done|]. split; [exact Hload|].
  apply Hact. by vm_compute.
Defined.

(** C3, as the code has it.  The line of an entry reads: the name, two
    spaces and, in brackets, the first 8 code units of the secret
    followed by three dots.  Nothing of the secret past its first 8 code
    units is shown; a secret of 8 code units or fewer is shown whole. *)
Theorem render_shows_first_8_units (st : storage) (keys : credentials) :
  loadCredentials st = Some keys ->
  render st
  = Some match keys with
         | [] => NoKeysSaved
         | _ :: _ =>
             Rows ((fun kv =>
                      {| info := kv.1 ++ js "  (" ++ (slice0 8 kv.2 ++ js "...")
                                   ++ js ")";
                         remove_name := kv.1 |}) <$> keys)
         end.
Proof. apply render_listing. Qed.

Lemma render_shows_first_8_units_witness :
  loadCredentials scenario_store = Some scenario_keys /\
  render scenario_store
  = Some (Rows [ {| info := js "prod  (fal-aaa1...)";
                    remove_name := js "prod" |} ]).
Proof.
  split; [by vm_compute|].
  apply (render_shows_first_8_units scenario_store scenario_keys).
  by vm_compute.
Defined.

(** C3, as stated, fails: the line of an entry whose secret is short
    contains the whole secret. *)
Lemma render_shows_short_secret_whole :
  loadCredentials (saveKeys [(js "prod", js "fal-a1")] ∅)
  = Some [(js "prod", js "fal-a1")] /\
  render (saveKeys [(js "prod", js "fal-a1")] ∅)
  = Some (Rows [ {| info := js "prod  (fal-a1...)";
                    remove_name := js "prod" |} ]) /\
  str_includes (js "prod  (fal-a1...)") (js "fal-a1") = true.
Proof. repeat split; by vm_compute. Qed.

(** C4 at the input where the code leaves it.  The active name is
    [toString] and the credential set is empty, so there is no secret
    for the active name; [keys[name]] finds the function of that name
    on [Object.prototype], the test [!key] lets it pass, and the push
    issues one request, whose body carries the name and no key.  The
    selector refresh, which asks [Object.keys], does not find the name
    in the same set. *)
Theorem pushActiveKeyToServer_inherited_name_calls_server :
  loadCredentials (setActiveKeyName (js "toString") ∅) = Some [] /\
  getActiveKeyName (setActiveKeyName (js "toString") ∅) = js "toString" /\
  own_get (A := jstring) [] (js "toString") = None /\
  array_includes (Object_keys (A := jstring) []) (js "toString") = false /\
  exists push,
    pushActiveKeyToServer (Arg := unit) (Res := unit)
      (setActiveKeyName (js "toString") ∅) = Some push /\
    forall e : env unit unit,
      network_calls (run e push).1 = 1%nat /\
      head (run e push).1
      = Some (EvFetch
                {| url := js "/fal-api/set-key";
                   method := js "POST";
                   headers := [(js "Content-Type", js "application/json")];
                   body := JSON.stringify
                             [(js "name", VString (js "toString"))] |}).
Proof.
  repeat (split; [by vm_compute|]).
  eexists. split; [by vm_compute|].
  intros e. cbn. destruct (net e _); by vm_compute.
Qed.

(** C5, as the code has it.  Whatever comes back for the request, the
    promise of [pushActiveKeyToServer] is fulfilled, never rejected, and
    the patched [queuePrompt] goes on to call the original function.
    At most one request is made.  When the request is rejected, no
    answer from the server or a call that throws, [console.error] is
    called once with the reason and nothing else happens.  When the
    request is fulfilled, and it is whenever the server answers, with
    an error status too, nothing is logged. *)
Theorem pushActiveKeyToServer_swallows_failure {Arg Res : Type}
    (e : env Arg Res) (st : storage) (keys : credentials) :
  loadCredentials st = Some keys ->
  exists push tr,
    pushActiveKeyToServer st = Some push /\
    run e push = (tr, Fulfilled tt) /\
    (network_calls tr <= 1)%nat /\
    (forall reason,
       EvFetchSettled (Rejected reason) ∈ tr ->
       exists req,
         tr = [EvFetch req; EvFetchSettled (Rejected reason);
               EvConsoleError push_failed reason]) /\
    (forall r,
       EvFetchSettled (Fulfilled r) ∈ tr ->
       exists req, tr = [EvFetch req; EvFetchSettled (Fulfilled r)]) /\
    (forall req status,
       EvFetch req ∈ tr -> net e req = fetch_settles (Answered status) ->
       forall msg reason, EvConsoleError msg reason ∉ tr) /\
    (forall args, exists call tr',
       queuePrompt (installQueueHook (App false origQueue)) args st = Some call /\
       run e call = (tr', host e args) /\
       EvOrigQueue args ∈ tr').
Proof.
  intros Hload.
  destruct (pushActiveKeyToServer_run e st keys Hload) as (push & Hpush & Hrun).
  eexists push, _. split; [done|]. split; [exact Hrun|]. cbv zeta.
  split; [|split; [|split; [|split]]].
  - destruct (negb (Obj.truthy _)); [cbn; lia|].
    destruct (net e _); cbn; lia.
  - intros reason Hin.
    destruct (negb (Obj.truthy _)); [by apply elem_of_nil in Hin|].
    destruct (net e _) as [r|x] eqn:En.
    + repeat (apply elem_of_cons in Hin as [Hin|Hin]; [done|]).
      by apply elem_of_nil in Hin.
    + apply elem_of_cons in Hin as [Hin|Hin]; [done|].
      apply elem_of_cons in Hin as [Hin|Hin].
      * injection Hin as ->. by eexists.
      * apply elem_of_cons in Hin as [Hin|Hin]; [done|].
        by apply elem_of_nil in Hin.
  - intros r Hin.
    destruct (negb (Obj.truthy _)); [by apply elem_of_nil in Hin|].
    destruct (net e _) as [r'|x] eqn:En.
    + apply elem_of_cons in Hin as [Hin|Hin]; [done|].
      apply elem_of_cons in Hin as [Hin|Hin].
      * injection Hin as ->. by eexists.
      * by apply elem_of_nil in Hin.
    + repeat (apply elem_of_cons in Hin as [Hin|Hin]; [done|]).
      by apply elem_of_nil in Hin.
  - intros req status Hin Hnet msg reason Hlog.
    destruct (negb (Obj.truthy _)); [by apply elem_of_nil in Hin|].
    assert (Hreq : req = set_key_request
                           (Obj.get keys (getActiveKeyName st))
                           (getActiveKeyName st)).
    { destruct (net e _);
        repeat (apply elem_of_cons in Hin as [Hin|Hin]; [congruence|]);
        by apply elem_of_nil in Hin. }
    subst req. rewrite Hnet in Hlog. cbn in Hlog.
    repeat (apply elem_of_cons in Hlog as [Hlog|Hlog]; [done|]).
    by apply elem_of_nil in Hlog.
  - intros args.
    destruct (queuePrompt_hooked_run e st keys args Hload)
      as (push' & call & tr & Hp & Hr & Hq & Hc).
    exists call. eexists. split; [done|]. split; [exact Hc|].
    apply elem_of_app. right. left.
Qed.

Lemma pushActiveKeyToServer_swallows_failure_witness :
  loadCredentials scenario_store = Some scenario_keys /\
  exists push tr,
    pushActiveKeyToServer scenario_store = Some push /\
    run scenario_env push = (tr, Fulfilled tt) /\
    (network_calls tr <= 1)%nat /\
    (forall reason,
       EvFetchSettled (Rejected reason) ∈ tr ->
       exists req,
         tr = [EvFetch req; EvFetchSettled (Rejected reason);
               EvConsoleError push_failed reason]) /\
    (forall r,
       EvFetchSettled (Fulfilled r) ∈ tr ->
       exists req, tr = [EvFetch req; EvFetchSettled (Fulfilled r)]) /\
    (forall req status,
       EvFetch req ∈ tr ->
       net scenario_env req = fetch_settles (Answered status) ->
       forall msg reason, EvConsoleError msg reason ∉ tr) /\
    (forall args, exists call tr',
       queuePrompt (installQueueHook (App false origQueue)) args scenario_store
       = Some call /\
       run scenario_env call = (tr', host scenario_env args) /\
       EvOrigQueue args ∈ tr').
Proof.
  split; [by vm_compute|].
  apply (pushActiveKeyToServer_swallows_failure scenario_env scenario_store
           scenario_keys).
  by vm_compute.
Defined.

(** C5, as stated, fails: a failure of the server that comes back as an
    answer with status 500 fulfils the request; the push makes the
    request, goes on, and [console.error] is not called. *)
Lemma server_error_status_is_not_logged :
  fetch_settles (Answered 500) = Fulfilled tt /\
  (run (fetching (fun _ => Answered 500)
          (fun args : list nat => Fulfilled (length args)))
     <$> pushActiveKeyToServer scenario_store)
  = Some ([EvFetch (set_key_request (VString (js "fal-aaa111")) (js "prod"));
           EvFetchSettled (Fulfilled tt)],
          Fulfilled tt) /\
  forall msg reason,
    EvConsoleError msg reason
    ∉ [EvFetch (Arg := nat) (Res := nat)
         (set_key_request (VString (js "fal-aaa111")) (js "prod"));
       EvFetchSettled (Fulfilled tt)].
Proof.
  split; [done|]. split; [by vm_compute|].
  intros msg reason Hin.
  repeat (apply elem_of_cons in Hin as [Hin|Hin]; [done|]).
  by apply elem_of_nil in Hin.
Qed.

(** C6.  For a node that has the selector: the refresh sets the options
    of the selector to the names of the stored entries, or to the single
    option [(no keys)] when there are none, and its value to the active
    name if that is one of the names, else to the first option.  The
    Remove and the Add button run this refresh on the storage they
    leave.  Hence removing the only entry leaves the options
    [[(no keys)]] and the value [(no keys)]. *)
Theorem refreshNodeWidgets_sets_selector (nd : node) (ws : list widget)
    (w : widget) (st : storage) (keys : credentials) :
  loadCredentials st = Some keys ->
  widgets nd = Some ws ->
  find_widget KEY_SELECTOR ws = Some w ->
  (exists nd' ws' w',
     refreshNodeWidgets (Some nd) st = Some (Some nd') /\
     widgets nd' = Some ws' /\
     find_widget KEY_SELECTOR ws' = Some w' /\
     w_values w' = match Object_keys keys with
                   | [] => [NO_KEYS]
                   | _ :: _ => Object_keys keys
                   end /\
     w_value w' = (if array_includes (Object_keys keys) (getActiveKeyName st)
                   then VString (getActiveKeyName st)
                   else first_of (w_values w'))) /\
  (forall n d, exists u',
     del_onclick n (UI st d (Some nd)) = Some u' /\
     refreshNodeWidgets (Some nd) (store u') = Some (bound u')) /\
  (forall nameInput keyInput d, exists u',
     addBtn_onclick nameInput keyInput (UI st d (Some nd)) = Some u' /\
     (u' = UI st d (Some nd) \/
      refreshNodeWidgets (Some nd) (store u') = Some (bound u'))) /\
  (forall n s d,
     keys = [(n, s)] ->
     exists u' nd' ws' w',
       del_onclick n (UI st d (Some nd)) = Some u' /\
       loadCredentials (store u') = Some [] /\
       bound u' = Some nd' /\
       widgets nd' = Some ws' /\
       find_widget KEY_SELECTOR ws' = Some w' /\
       w_values w' = [NO_KEYS] /\
       w_value w' = VString NO_KEYS).
Proof.
  intros Hload Hws Hfind.
  split; [by eapply refreshNodeWidgets_selector|].
  split; [|split].
  - intros n d.
    destruct (del_onclick_store n (UI st d (Some nd)) keys Hload)
      as (u' & Hdel & _ & _ & _ & Hb).
    by exists u'.
  - intros nameInput keyInput d.
    destruct (trim nameInput) as [|a n'] eqn:En.
    { exists (UI st d (Some nd)). unfold addBtn_onclick. rewrite En.
      split; [done|by left]. }
    destruct (trim keyInput) as [|b k'] eqn:Ek.
    { exists (UI st d (Some nd)). unfold addBtn_onclick. rewrite En, Ek.
      split; [done|by left]. }
    destruct (addBtn_onclick_store nameInput keyInput (UI st d (Some nd)) keys)
      as (u' & Hadd & _ & _ & _ & Hb); try done.
    + by rewrite En.
    + by rewrite Ek.
    + apply set_well_formed. by eapply loadCredentials_well_formed.
    + exists u'. split; [done|by right].
  - intros n s d ->.
    destruct (del_onclick_store n (UI st d (Some nd)) [(n, s)] Hload)
      as (u' & Hdel & _ & Hload' & _ & Hb).
    cbn [delete_own] in Hload'. rewrite str_eqb_refl in Hload'.
    destruct (refreshNodeWidgets_selector nd ws w (store u') [] Hload' Hws Hfind)
      as (nd' & ws' & w' & Hr & Hws' & Hfind' & Hvals & Hval).
    cbn [bound] in Hb. rewrite Hr in Hb. injection Hb as Hb.
    cbn in Hvals. cbn [Object_keys fmap list_fmap array_includes existsb] in Hval.
    rewrite Hvals in Hval.
    by exists u', nd', ws', w'.
Qed.

Lemma refreshNodeWidgets_sets_selector_witness :
  loadCredentials scenario_store = Some scenario_keys /\
  widgets scenario_node = Some scenario_widgets /\
  exists u' nd' ws' w',
    del_onclick (js "prod") scenario_ui = Some u' /\
    loadCredentials (store u') = Some [] /\
    bound u' = Some nd' /\
    widgets nd' = Some ws' /\
    find_widget KEY_SELECTOR ws' = Some w' /\
    w_values w' = [NO_KEYS] /\
    w_value w' = VString NO_KEYS.
Proof.
  split; [by vm_compute|]. split; [done|].
  destruct (refreshNodeWidgets_sets_selector scenario_node scenario_widgets
              {| w_name := KEY_SELECTOR; w_value := VString (js "prod");
                 w_values := [js "prod"] |}
              scenario_store scenario_keys)
    as (_ & _ & _ & Hlast); [by vm_compute|done|by vm_compute|].
  apply (Hlast (js "prod") (js "fal-aaa111") (dialog scenario_ui)).
  done.
Defined.

(** C7.  Round trip: for every credential set, a plain object whose
    values are strings, [saveKeys] followed by [loadKeys] gives back
    an object with the same properties, the same values and the same
    key order, whatever the storage held before. *)
Theorem saveKeys_loadKeys_roundtrip (keys : credentials) (st : storage) :
  well_formed keys = true ->
  loadKeys (saveKeys keys st) = JObj (to_json keys) /\
  loadCredentials (saveKeys keys st) = Some keys.
Proof.
  intros Hwf. split; [by apply loadKeys_saveKeys|by apply loadCredentials_saveKeys].
Qed.

Lemma saveKeys_loadKeys_roundtrip_witness :
  well_formed [(js "prod", js "fal-aaa111"); (js "dev", js "fal-bbb222")] = true /\
  loadKeys (saveKeys [(js "prod", js "fal-aaa111"); (js "dev", js "fal-bbb222")] ∅)
  = JObj (to_json [(js "prod", js "fal-aaa111"); (js "dev", js "fal-bbb222")]) /\
  loadCredentials
    (saveKeys [(js "prod", js "fal-aaa111"); (js "dev", js "fal-bbb222")] ∅)
  = Some [(js "prod", js "fal-aaa111"); (js "dev", js "fal-bbb222")].
Proof.
  split; [reflexivity|].
  apply (saveKeys_loadKeys_roundtrip
           [(js "prod", js "fal-aaa111"); (js "dev", js "fal-bbb222")] ∅).
  reflexivity.
Defined.

(** C8, as the code has it.  [loadKeys] is total: no content of the
    storage makes it fail.  It gives the empty object when the entry is
    absent, when its text does not parse, and when it parses to a falsy
    value ([null], [false], a zero, the empty string); every other
    parsed value, an array or a number as much as an object, is
    returned as it is.  What it returns is never falsy. *)
Theorem loadKeys_never_fails (st : storage) :
  (getItem st KEYS_STORAGE = None -> loadKeys st = JObj []) /\
  (forall text,
     getItem st KEYS_STORAGE = Some text -> JSON.parse text = None ->
     loadKeys st = JObj []) /\
  (forall text v,
     getItem st KEYS_STORAGE = Some text -> JSON.parse text = Some v ->
     JSON.truthy v = false -> loadKeys st = JObj []) /\
  (forall text v,
     getItem st KEYS_STORAGE = Some text -> JSON.parse text = Some v ->
     JSON.truthy v = true -> loadKeys st = v) /\
  JSON.truthy (loadKeys st) = true.
Proof.
  unfold loadKeys. repeat split.
  - by intros ->.
  - intros text -> H. change (default _ (Some text)) with text. by rewrite H.
  - intros text v -> H Hv. change (default _ (Some text)) with text.
    by rewrite H, Hv.
  - intros text v -> H Hv. change (default _ (Some text)) with text.
    by rewrite H, Hv.
  - destruct (JSON.parse _) as [v|]; [|done].
    by destruct (JSON.truthy v) eqn:E.
Qed.

Lemma loadKeys_never_fails_witness :
  loadKeys ∅ = JObj [] /\
  loadKeys (setItem KEYS_STORAGE (js "{prod:") ∅) = JObj [] /\
  loadKeys (setItem KEYS_STORAGE (js "0") ∅) = JObj [].
Proof.
  split; [|split].
  - destruct (loadKeys_never_fails ∅) as (H & _).
    apply H. reflexivity.
  - destruct (loadKeys_never_fails (setItem KEYS_STORAGE (js "{prod:") ∅))
      as (_ & H & _).
    apply (H (js "{prod:")); by vm_compute.
  - destruct (loadKeys_never_fails (setItem KEYS_STORAGE (js "0") ∅))
      as (_ & _ & H & _).
    apply (H (js "0") (JNum (Number false 0 0))); by vm_compute.
Defined.

(** C8, as stated, fails: a stored array is not a mapping, and
    [loadKeys] returns it, not the empty set. *)
Lemma loadKeys_returns_stored_array :
  JSON.parse (js "[1]") = Some (JArr [JNum (Number false 1 0)]) /\
  as_credentials (JArr [JNum (Number false 1 0)]) = None /\
  loadKeys (setItem KEYS_STORAGE (js "[1]") ∅) = JArr [JNum (Number false 1 0)] /\
  loadKeys (setItem KEYS_STORAGE (js "[1]") ∅) <> JObj [].
Proof. repeat split; [by vm_compute..|]. by vm_compute. Qed.

(** C9.  The Add button with a name that, trimmed, is already in the
    set and a secret that, trimmed, is not empty: the secret of that
    entry becomes the new one, the entries are as many as before, under
    the same names in the same order, and every other entry keeps its
    secret. *)
Theorem addBtn_onclick_overwrites (nameInput keyInput : jstring) (u : ui)
    (keys : credentials) :
  loadCredentials (store u) = Some keys ->
  trim nameInput <> [] ->
  trim keyInput <> [] ->
  has_own keys (trim nameInput) = true ->
  exists u' keys',
    addBtn_onclick nameInput keyInput u = Some u' /\
    loadCredentials (store u') = Some keys' /\
    own_get keys' (trim nameInput) = Some (trim keyInput) /\
    length keys' = length keys /\
    Object_keys keys' = Object_keys keys /\
    (forall k, k <> trim nameInput -> own_get keys' k = own_get keys k).
Proof.
  intros Hload Hn Hk Hown.
  pose proof (loadCredentials_well_formed _ _ Hload) as Hwf.
  destruct (addBtn_onclick_store nameInput keyInput u keys)
    as (u' & Hadd & _ & Hload' & _); try done.
  { by apply set_well_formed. }
  exists u', (Obj.set keys (trim nameInput) (trim keyInput)).
  split; [done|]. split; [done|].
  unfold Obj.set. rewrite Hown.
  split; [by apply update_own_get|].
  split; [apply update_own_length|].
  split; [apply update_own_keys|].
  intros k Hne. by apply update_own_other.
Qed.

Lemma addBtn_onclick_overwrites_witness :
  loadCredentials (store scenario_ui) = Some scenario_keys /\
  exists u' keys',
    addBtn_onclick (js " prod ") (js " fal-ccc333 ") scenario_ui = Some u' /\
    loadCredentials (store u') = Some keys' /\
    own_get keys' (trim (js " prod ")) = Some (trim (js " fal-ccc333 ")) /\
    length keys' = length scenario_keys /\
    Object_keys keys' = Object_keys scenario_keys /\
    (forall k, k <> trim (js " prod ") ->
               own_get keys' k = own_get scenario_keys k).
Proof.
  split; [by vm_compute|].
  apply (addBtn_onclick_overwrites (js " prod ") (js " fal-ccc333 ")
           scenario_ui scenario_keys); by vm_compute.
Defined.

(** C10.  The callback of the selector writes the active name exactly
    when the value is neither empty nor [(no keys)]; with an empty value
    or with [(no keys)] the storage stays as it is, so the selector
    never makes [(no keys)] the active name; the stored keys are never
    touched. *)
Theorem key_selector_callback_guards (v : jstring) (st : storage) :
  (v <> [] -> v <> NO_KEYS ->
   key_selector_callback v st = setActiveKeyName v st /\
   getActiveKeyName (key_selector_callback v st) = v) /\
  (v = [] \/ v = NO_KEYS -> key_selector_callback v st = st) /\
  (key_selector_callback v st <> st -> v <> [] /\ v <> NO_KEYS) /\
  (getActiveKeyName st <> NO_KEYS ->
   getActiveKeyName (key_selector_callback v st) <> NO_KEYS) /\
  loadKeys (key_selector_callback v st) = loadKeys st.
Proof.
  unfold key_selector_callback.
  destruct v as [|a v'].
  { cbn. by repeat split. }
  cbn [truthy_string andb].
  destruct (str_eqb (a :: v') NO_KEYS) eqn:E.
  - apply str_eqb_true in E. cbn [negb]. by repeat split.
  - apply str_eqb_false in E. cbn [negb].
    split; [intros _ _; split; [done|apply getActiveKeyName_setActiveKeyName]|].
    split; [by intros [H|H]|].
    split; [done|].
    split; [intros _; by rewrite getActiveKeyName_setActiveKeyName|].
    apply loadKeys_setActiveKeyName.
Qed.

Lemma key_selector_callback_guards_witness :
  key_selector_callback NO_KEYS scenario_store = scenario_store /\
  key_selector_callback [] scenario_store = scenario_store /\
  getActiveKeyName (key_selector_callback (js "dev") scenario_store) = js "dev".
Proof.
  split; [|split].
  - apply (key_selector_callback_guards NO_KEYS scenario_store). by right.
  - apply (key_selector_callback_guards [] scenario_store). by left.
  - apply (key_selector_callback_guards (js "dev") scenario_store);
      by vm_compute.
Defined.

(** * Further properties *)

(** ** More on plain objects *)

Module MoreObjFacts.
Import Obj ObjFacts.

Section Props.
Context {A : Type}.
Implicit Types (props : list (jstring * A)) (k : jstring) (v : A).

Lemma has_own_false_key props k :
  has_own props k = false <-> k ∉ Object_keys props.
Proof.
  rewrite <- has_own_key. by destruct (has_own props k).
Qed.

Lemma insert_index_keys props k v i x :
  x ∈ Object_keys (insert_index i k v props) <->
  x = k \/ x ∈ Object_keys props.
Proof.
  unfold Object_keys.
  induction props as [|[k' v'] rest IH]; cbn.
  - rewrite elem_of_cons. by rewrite !elem_of_nil.
  - destruct (array_index k') as [j|]; [destruct (j <? i)|]; cbn;
      rewrite ?elem_of_cons, ?IH; cbn; rewrite ?elem_of_cons; tauto.
Qed.

Lemma define_own_keys props k v x :
  x ∈ Object_keys (define_own props k v) <->
  x = k \/ x ∈ Object_keys props.
Proof.
  unfold define_own. destruct (has_own props k) eqn:E.
  - rewrite update_own_keys. apply has_own_key in E.
    split; [by right|]. by intros [->|H].
  - destruct (array_index k) as [i|]; [apply insert_index_keys|].
    unfold Object_keys. rewrite fmap_app, elem_of_app. cbn.
    rewrite elem_of_cons, elem_of_nil. tauto.
Qed.

Lemma insert_index_get props k v i :
  k ∉ Object_keys props -> own_get (insert_index i k v props) k = Some v.
Proof.
  unfold Object_keys.
  induction props as [|[k' v'] rest IH]; cbn; intros Hk.
  - by rewrite str_eqb_refl.
  - apply not_elem_of_cons in Hk as [Hne Hk].
    assert (E : str_eqb k' k = false) by (apply str_eqb_false; congruence).
    destruct (array_index k') as [j|]; [destruct (j <? i)|]; cbn;
      rewrite ?E, ?str_eqb_refl; auto.
Qed.

Lemma insert_index_get_other props k v i k0 :
  k0 <> k -> own_get (insert_index i k v props) k0 = own_get props k0.
Proof.
  intros Hne.
  assert (E : str_eqb k k0 = false) by (apply str_eqb_false; congruence).
  induction props as [|[k' v'] rest IH]; cbn.
  - by rewrite E.
  - destruct (array_index k') as [j|]; [destruct (j <? i)|]; cbn;
      rewrite ?E, ?IH; done.
Qed.

Lemma own_get_app props props' k :
  own_get (props ++ props') k =
  match own_get props k with
  | Some v => Some v
  | None => own_get props' k
  end.
Proof.
  induction props as [|[k' v'] rest IH]; [done|].
  cbn. by destruct (str_eqb k' k).
Qed.

Lemma define_own_get props k v :
  own_get (define_own props k v) k = Some v.
Proof.
  unfold define_own. destruct (has_own props k) eqn:E.
  - by apply update_own_get.
  - destruct (array_index k) as [i|].
    + apply insert_index_get. by apply has_own_false_key.
    + rewrite own_get_app. unfold has_own in E.
      destruct (own_get props k); [done|]. cbn. by rewrite str_eqb_refl.
Qed.

Lemma define_own_get_other props k v k0 :
  k0 <> k -> own_get (define_own props k v) k0 = own_get props k0.
Proof.
  intros Hne. unfold define_own. destruct (has_own props k).
  - by apply update_own_other.
  - destruct (array_index k) as [i|].
    + by apply insert_index_get_other.
    + rewrite own_get_app. destruct (own_get props k0); [done|].
      cbn. assert (E : str_eqb k k0 = false) by (apply str_eqb_false; congruence).
      by rewrite E.
Qed.

Lemma insert_index_length props k v i :
  length (insert_index i k v props) = S (length props).
Proof.
  induction props as [|[k' v'] rest IH]; cbn; [done|].
  destruct (array_index k') as [j|]; [destruct (j <? i)|]; cbn; by rewrite ?IH.
Qed.

Lemma define_own_length_new props k v :
  has_own props k = false -> length (define_own props k v) = S (length props).
Proof.
  intros E. unfold define_own. rewrite E.
  destruct (array_index k) as [i|]; [apply insert_index_length|].
  rewrite length_app. cbn. lia.
Qed.

Lemma delete_own_insert_index props k v i :
  k ∉ Object_keys props -> delete_own (insert_index i k v props) k = props.
Proof.
  unfold Object_keys.
  induction props as [|[k' v'] rest IH]; cbn; intros Hk.
  - by rewrite str_eqb_refl.
  - apply not_elem_of_cons in Hk as [Hne Hk].
    assert (E : str_eqb k' k = false) by (apply str_eqb_false; congruence).
    destruct (array_index k') as [j|]; [destruct (j <? i)|]; cbn;
      rewrite ?E, ?str_eqb_refl, ?IH; auto.
Qed.

Lemma delete_own_app_last props k v :
  k ∉ Object_keys props -> delete_own (props ++ [(k, v)]) k = props.
Proof.
  unfold Object_keys.
  induction props as [|[k' v'] rest IH]; cbn; intros Hk.
  - by rewrite str_eqb_refl.
  - apply not_elem_of_cons in Hk as [Hne Hk].
    assert (E : str_eqb k' k = false) by (apply str_eqb_false; congruence).
    by rewrite E, IH.
Qed.

(** Deleting a key that was just defined, and was not there before,
    gives the object as it was. *)
Lemma delete_own_define_own props k v :
  has_own props k = false -> delete_own (define_own props k v) k = props.
Proof.
  intros E. unfold define_own. rewrite E. apply has_own_false_key in E.
  destruct (array_index k) as [i|].
  - by apply delete_own_insert_index.
  - by apply delete_own_app_last.
Qed.

Lemma update_own_Forall (P : jstring * A -> Prop) props k v :
  Forall P props -> (forall k', k' = k -> P (k', v)) ->
  Forall P (update_own props k v).
Proof.
  intros H Hk. induction H as [|[k' v'] rest Hx Hrest IH]; cbn; [done|].
  destruct (str_eqb k' k) eqn:E.
  - apply str_eqb_true in E. constructor; [by apply Hk|done].
  - by constructor.
Qed.

Lemma insert_index_Forall (P : jstring * A -> Prop) props k v i :
  Forall P props -> P (k, v) -> Forall P (insert_index i k v props).
Proof.
  intros H Hk. induction H as [|[k' v'] rest Hx Hrest IH]; cbn.
  - by constructor.
  - destruct (array_index k') as [j|]; [destruct (j <? i)|];
      repeat constructor; done.
Qed.

Lemma define_own_Forall (P : jstring * A -> Prop) props k v :
  Forall P props -> P (k, v) -> Forall P (define_own props k v).
Proof.
  intros H Hk. unfold define_own. destruct (has_own props k).
  - apply update_own_Forall; [done|]. by intros k' ->.
  - destruct (array_index k) as [i|]; [by apply insert_index_Forall|].
    apply Forall_app. split; [done|]. by constructor.
Qed.

Lemma delete_own_Forall (P : jstring * A -> Prop) props k :
  Forall P props -> Forall P (delete_own props k).
Proof.
  intros H. induction H as [|[k' v'] rest Hx Hrest IH]; cbn; [done|].
  destruct (str_eqb k' k); [done|]. by constructor.
Qed.

Lemma delete_own_keys props k x :
  well_formed props = true ->
  x ∈ Object_keys (delete_own props k) <-> x <> k /\ x ∈ Object_keys props.
Proof.
  intros Hwf. split.
  - intros Hx. split; [|by eapply delete_own_keys_sub].
    intros ->. apply has_own_key in Hx. unfold has_own in Hx.
    by rewrite delete_own_gone in Hx.
  - intros [Hne Hx]. apply has_own_key. apply has_own_key in Hx.
    unfold has_own in *. by rewrite delete_own_other.
Qed.

End Props.

(** [o[k] = s]: what is read afterwards. *)
Lemma set_get_other (o : list (jstring * jstring)) (k s k0 : jstring) :
  k0 <> k -> own_get (Obj.set o k s) k0 = own_get o k0.
Proof.
  intros Hne. unfold Obj.set. destruct (has_own o k).
  - by apply update_own_other.
  - destruct (str_eqb k proto_name); [done|]. by apply define_own_get_other.
Qed.

Lemma set_get (o : list (jstring * jstring)) (k s : jstring) :
  has_own o k = true \/ k <> proto_name ->
  own_get (Obj.set o k s) k = Some s.
Proof.
  intros H. unfold Obj.set. destruct (has_own o k) eqn:E.
  - by apply update_own_get.
  - destruct H as [H|H]; [done|]. apply str_eqb_false in H. rewrite H.
    apply define_own_get.
Qed.

Lemma set_keys_mono (o : list (jstring * jstring)) (k s x : jstring) :
  x ∈ Object_keys o -> x ∈ Object_keys (Obj.set o k s).
Proof.
  intros Hx. unfold Obj.set. destruct (has_own o k).
  - by rewrite update_own_keys.
  - destruct (str_eqb k proto_name); [done|].
    apply define_own_keys. by right.
Qed.

Lemma set_Forall (P : jstring * jstring -> Prop)
    (o : list (jstring * jstring)) (k s : jstring) :
  Forall P o -> P (k, s) -> Forall P (Obj.set o k s).
Proof.
  intros H Hk. unfold Obj.set. destruct (has_own o k).
  - apply update_own_Forall; [done|]. by intros k' ->.
  - destruct (str_eqb k proto_name); [done|]. by apply define_own_Forall.
Qed.

End MoreObjFacts.

(** ** More on the handlers *)

Module HandlerFacts.
Import Obj JSON Async KeyManager.
Import ObjFacts JSONFacts StoreFacts AsyncFacts DialogFacts MoreObjFacts.

(** *** trim *)

Lemma trim_start_blank (s : jstring) :
  forallb is_trim_space s = true -> trim_start s = [].
Proof.
  induction s as [|c r IH]; [done|]. cbn. intros H.
  apply andb_true_iff in H as [-> H]. by apply IH.
Qed.

Lemma trim_blank (s : jstring) : forallb is_trim_space s = true -> trim s = [].
Proof. intros H. unfold trim. by rewrite trim_start_blank. Qed.

Lemma trim_start_idempotent (s : jstring) :
  trim_start (trim_start s) = trim_start s.
Proof.
  induction s as [|c r IH]; [done|]. cbn.
  destruct (is_trim_space c) eqn:E; [done|]. cbn. by rewrite E.
Qed.

Lemma trim_start_keeps_last (m : jstring) (c : N) :
  is_trim_space c = false -> exists l, trim_start (m ++ [c]) = l ++ [c].
Proof.
  intros Hc. induction m as [|d m IH]; cbn.
  - rewrite Hc. by exists [].
  - destruct (is_trim_space d); [done|]. by exists (d :: m).
Qed.

Lemma trim_start_trim (s : jstring) : trim_start (trim s) = trim s.
Proof.
  unfold trim, trim_end.
  destruct (trim_start s) as [|c r] eqn:E; [done|].
  assert (Hc : is_trim_space c = false).
  { clear -E. induction s as [|d s IH]; [done|]. cbn in E.
    destruct (is_trim_space d) eqn:Ed; [by apply IH|]. by injection E as -> _. }
  cbn [rev].
  destruct (trim_start_keeps_last (rev r) c Hc) as [l ->].
  rewrite rev_app_distr. cbn. by rewrite Hc.
Qed.

(** Trimming what is trimmed changes nothing. *)
Lemma trim_idempotent (s : jstring) : trim (trim s) = trim s.
Proof.
  unfold trim at 1. rewrite trim_start_trim.
  unfold trim, trim_end. rewrite rev_involutive, trim_start_idempotent.
  done.
Qed.

(** *** The handlers on a credential set *)

Lemma del_onclick_active (n : jstring) (u u' : ui) (keys : credentials) :
  loadCredentials (store u) = Some keys ->
  del_onclick n u = Some u' ->
  getActiveKeyName (store u')
  = (if str_eqb (getActiveKeyName (store u)) n then []
     else getActiveKeyName (store u)) /\
  (getActiveKeyName (store u) <> n ->
   getItem (store u') ACTIVE_STORAGE = getItem (store u) ACTIVE_STORAGE).
Proof.
  intros Hload Hdel.
  destruct (del_onclick_store n u keys Hload) as (u0 & Hdel0 & Hst & _).
  rewrite Hdel in Hdel0. injection Hdel0 as <-.
  cbv zeta in Hst. rewrite getActiveKeyName_saveKeys in Hst. rewrite Hst.
  destruct (str_eqb (getActiveKeyName (store u)) n) eqn:E.
  - split; [apply getActiveKeyName_setActiveKeyName|].
    apply str_eqb_true in E. congruence.
  - split; [apply getActiveKeyName_saveKeys|]. intros _.
    unfold saveKeys. apply getItem_setItem_ne, storage_keys_distinct.
Qed.

(** The Add button on any inputs: it answers, and the storage it leaves
    is the old one or the old one with the keys saved anew. *)
Lemma addBtn_onclick_cases (nameInput keyInput : jstring) (u : ui)
    (keys : credentials) :
  loadCredentials (store u) = Some keys ->
  exists u',
    addBtn_onclick nameInput keyInput u = Some u' /\
    ((trim nameInput = [] \/ trim keyInput = []) /\ u' = u \/
     (trim nameInput <> [] /\ trim keyInput <> []) /\
     store u' = saveKeys (Obj.set keys (trim nameInput) (trim keyInput))
                  (store u) /\
     loadCredentials (store u')
     = Some (Obj.set keys (trim nameInput) (trim keyInput)) /\
     render (store u') = Some (dialog u') /\
     refreshNodeWidgets (bound u) (store u') = Some (bound u')).
Proof.
  intros Hload.
  destruct (trim nameInput) as [|a n'] eqn:En.
  { exists u. unfold addBtn_onclick. rewrite En. split; [done|]. left. auto. }
  destruct (trim keyInput) as [|b k'] eqn:Ek.
  { exists u. unfold addBtn_onclick. rewrite En, Ek. split; [done|]. left. auto. }
  destruct (addBtn_onclick_store nameInput keyInput u keys)
    as (u' & Hadd & Hst & Hload' & Hr & Hb); try done.
  - by rewrite En.
  - by rewrite Ek.
  - apply set_well_formed. by eapply loadCredentials_well_formed.
  - exists u'. split; [done|]. right. rewrite En, Ek in *. by repeat split.
Qed.

Lemma getItem_active_saveKeys (keys : credentials) (st : storage) :
  getItem (saveKeys keys st) ACTIVE_STORAGE = getItem st ACTIVE_STORAGE.
Proof. unfold saveKeys. apply getItem_setItem_ne, storage_keys_distinct. Qed.

End HandlerFacts.

(** ** The properties *)

Import MoreObjFacts HandlerFacts.

(** X1.  The two entries of the storage do not disturb each other and
    nothing else is written: the active name reads back as it was set,
    empty or not; setting it leaves the keys as they load; saving keys
    leaves the active name; and every other entry of the storage
    survives both. *)
Theorem storage_entries_independent (name : jstring) (keys : credentials)
    (st : storage) :
  getActiveKeyName (setActiveKeyName name st) = name /\
  loadKeys (setActiveKeyName name st) = loadKeys st /\
  getActiveKeyName (saveKeys keys st) = getActiveKeyName st /\
  (forall k, k <> KEYS_STORAGE -> k <> ACTIVE_STORAGE ->
     getItem (saveKeys keys (setActiveKeyName name st)) k = getItem st k /\
     getItem (setActiveKeyName name (saveKeys keys st)) k = getItem st k).
Proof.
  split; [apply getActiveKeyName_setActiveKeyName|].
  split; [apply loadKeys_setActiveKeyName|].
  split; [apply getActiveKeyName_saveKeys|].
  intros k Hk Ha. unfold saveKeys, setActiveKeyName.
  by rewrite !getItem_setItem_ne.
Qed.

Lemma storage_entries_independent_witness :
  getItem (saveKeys scenario_keys
             (setActiveKeyName (js "dev") (setItem (js "theme") (js "dark") ∅)))
    (js "theme")
  = Some (js "dark").
Proof.
  destruct (storage_entries_independent (js "dev") scenario_keys
              (setItem (js "theme") (js "dark") ∅)) as (_ & _ & _ & H).
  destruct (H (js "theme")) as [-> _]; by vm_compute.
Defined.

(** X2.  [installQueueHook] installs once.  A second call changes
    nothing, so after any number of calls one [queuePrompt] runs one
    push, at most one request, and calls the host's function once. *)
Theorem installQueueHook_installs_once {Arg Res : Type}
    (e : env Arg Res) (args : list Arg) (st : storage) (keys : credentials) :
  loadCredentials st = Some keys ->
  (forall a : app Arg Res,
     installQueueHook (installQueueHook a) = installQueueHook a /\
     hooked (installQueueHook a) = true) /\
  exists call tr,
    queuePrompt (installQueueHook (installQueueHook (App false origQueue)))
      args st = Some call /\
    run e call
    = (tr ++ [EvOrigQueue args; EvOrigQueueSettled (host e args)],
       host e args) /\
    (network_calls tr <= 1)%nat /\
    Forall (fun ev => forall args', ev <> EvOrigQueue args') tr.
Proof.
  intros Hload. split.
  { intros a. split; [apply installQueueHook_idempotent|].
    unfold installQueueHook. by destruct (hooked a) eqn:E. }
  rewrite installQueueHook_idempotent.
  destruct (queuePrompt_hooked_run e st keys args Hload)
    as (push & call & tr & Hp & Hr & Hq & Hc).
  exists call, tr. split; [done|]. split; [done|].
  destruct (pushActiveKeyToServer_run e st keys Hload) as (push' & Hp' & Hr').
  rewrite Hp in Hp'. injection Hp' as <-. rewrite Hr in Hr'.
  injection Hr' as ->. cbv zeta.
  destruct (negb (Obj.truthy _)); [split; [cbn; lia|constructor]|].
  destruct (net e _); split; try (cbn; lia); by repeat constructor.
Qed.

Lemma installQueueHook_installs_once_witness :
  exists call tr,
    queuePrompt (installQueueHook (installQueueHook (App false origQueue)))
      [7%nat] scenario_store = Some call /\
    run scenario_env call
    = (tr ++ [EvOrigQueue [7%nat]; EvOrigQueueSettled (Fulfilled 1%nat)],
       Fulfilled 1%nat) /\
    (network_calls tr <= 1)%nat /\
    Forall (fun ev => forall args', ev <> EvOrigQueue args') tr.
Proof.
  apply (installQueueHook_installs_once scenario_env [7%nat] scenario_store
           scenario_keys).
  by vm_compute.
Defined.

(** X3.  The Add button with a name or a secret that is blank, empty or
    made of white space only, does nothing: the storage, the dialog and
    the node stay as they are, whatever the storage holds. *)
Theorem addBtn_onclick_rejects_blank (nameInput keyInput : jstring) (u : ui) :
  forallb is_trim_space nameInput = true \/
  forallb is_trim_space keyInput = true ->
  addBtn_onclick nameInput keyInput u = Some u.
Proof.
  intros [H|H]; unfold addBtn_onclick; rewrite (trim_blank _ H); [done|].
  by destruct (trim nameInput).
Qed.

Lemma addBtn_onclick_rejects_blank_witness :
  addBtn_onclick (js "dev") [32; 9; 160] scenario_ui = Some scenario_ui.
Proof.
  apply (addBtn_onclick_rejects_blank (js "dev") [32; 9; 160] scenario_ui).
  right. reflexivity.
Defined.

(** X4.  The Add button with a new name: the set gains exactly that
    entry, with the trimmed secret; every other entry keeps its secret
    and its place; the active name is not written. *)
Theorem addBtn_onclick_adds_new_entry (nameInput keyInput : jstring) (u : ui)
    (keys : credentials) :
  loadCredentials (store u) = Some keys ->
  trim nameInput <> [] ->
  trim keyInput <> [] ->
  has_own keys (trim nameInput) = false ->
  trim nameInput <> proto_name ->
  exists u' keys',
    addBtn_onclick nameInput keyInput u = Some u' /\
    loadCredentials (store u') = Some keys' /\
    own_get keys' (trim nameInput) = Some (trim keyInput) /\
    length keys' = S (length keys) /\
    delete_own keys' (trim nameInput) = keys /\
    (forall k, k <> trim nameInput -> own_get keys' k = own_get keys k) /\
    getItem (store u') ACTIVE_STORAGE = getItem (store u) ACTIVE_STORAGE.
Proof.
  intros Hload Hn Hk Hown Hproto.
  destruct (addBtn_onclick_cases nameInput keyInput u keys Hload)
    as (u' & Hadd & [[[H|H] _]|(_ & Hst & Hload' & _)]); try done.
  exists u', (Obj.set keys (trim nameInput) (trim keyInput)).
  split; [done|]. split; [done|].
  split; [apply set_get; by right|].
  assert (Hset : Obj.set keys (trim nameInput) (trim keyInput)
                 = define_own keys (trim nameInput) (trim keyInput)).
  { unfold Obj.set. rewrite Hown. apply str_eqb_false in Hproto.
    by rewrite Hproto. }
  split; [rewrite Hset; by apply define_own_length_new|].
  split; [rewrite Hset; by apply delete_own_define_own|].
  split; [intros k Hne; by apply set_get_other|].
  rewrite Hst. apply getItem_active_saveKeys.
Qed.

Lemma addBtn_onclick_adds_new_entry_witness :
  exists u' keys',
    addBtn_onclick (js " dev") (js "fal-bbb222 ") scenario_ui = Some u' /\
    loadCredentials (store u') = Some keys' /\
    own_get keys' (trim (js " dev")) = Some (trim (js "fal-bbb222 ")) /\
    length keys' = S (length scenario_keys) /\
    delete_own keys' (trim (js " dev")) = scenario_keys /\
    (forall k, k <> trim (js " dev") ->
               own_get keys' k = own_get scenario_keys k) /\
    getItem (store u') ACTIVE_STORAGE
    = getItem (store scenario_ui) ACTIVE_STORAGE.
Proof.
  apply (addBtn_onclick_adds_new_entry (js " dev") (js "fal-bbb222 ")
           scenario_ui scenario_keys); by vm_compute.
Defined.

(** X5.  Add, then Remove: removing a name that was just added, and was
    not in the set before, leaves the set exactly as it was before the
    two clicks. *)
Theorem add_then_remove_restores (nameInput keyInput : jstring) (u : ui)
    (keys : credentials) :
  loadCredentials (store u) = Some keys ->
  trim nameInput <> [] ->
  trim keyInput <> [] ->
  has_own keys (trim nameInput) = false ->
  exists u' u'',
    addBtn_onclick nameInput keyInput u = Some u' /\
    del_onclick (trim nameInput) u' = Some u'' /\
    loadCredentials (store u'') = Some keys.
Proof.
  intros Hload Hn Hk Hown.
  destruct (addBtn_onclick_cases nameInput keyInput u keys Hload)
    as (u' & Hadd & [[[H|H] _]|(_ & Hst & Hload' & _)]); try done.
  destruct (del_onclick_store (trim nameInput) u' _ Hload')
    as (u'' & Hdel & _ & Hload'' & _).
  exists u', u''. split; [done|]. split; [done|]. rewrite Hload''. f_equal.
  unfold Obj.set. rewrite Hown.
  destruct (str_eqb (trim nameInput) proto_name).
  - apply delete_own_absent. unfold has_own in Hown.
    by destruct (own_get keys (trim nameInput)).
  - by apply delete_own_define_own.
Qed.

Lemma add_then_remove_restores_witness :
  exists u' u'',
    addBtn_onclick (js "7") (js "fal-bbb222") scenario_ui = Some u' /\
    del_onclick (trim (js "7")) u' = Some u'' /\
    loadCredentials (store u'') = Some scenario_keys.
Proof.
  apply (add_then_remove_restores (js "7") (js "fal-bbb222") scenario_ui
           scenario_keys); by vm_compute.
Defined.

(** X6.  The name [__proto__] cannot be added: with any secret, on a
    set that has no such entry, the Add button goes through its steps
    and the stored set is the same as before. *)
Theorem addBtn_onclick_cannot_add_proto (nameInput keyInput : jstring)
    (u : ui) (keys : credentials) :
  loadCredentials (store u) = Some keys ->
  trim nameInput = proto_name ->
  has_own keys proto_name = false ->
  exists u',
    addBtn_onclick nameInput keyInput u = Some u' /\
    loadCredentials (store u') = Some keys /\
    own_get keys proto_name = None.
Proof.
  intros Hload Hn Hown.
  assert (Hnone : own_get keys proto_name = None).
  { unfold has_own in Hown. by destruct (own_get keys proto_name). }
  destruct (addBtn_onclick_cases nameInput keyInput u keys Hload)
    as (u' & Hadd & [[_ ->]|(_ & _ & Hload' & _)]).
  - by exists u.
  - exists u'. split; [done|]. split; [|done].
    rewrite Hload'. f_equal. unfold Obj.set. rewrite Hn, Hown.
    by rewrite str_eqb_refl.
Qed.

Lemma addBtn_onclick_cannot_add_proto_witness :
  exists u',
    addBtn_onclick (js "__proto__") (js "fal-bbb222") scenario_ui = Some u' /\
    loadCredentials (store u') = Some scenario_keys /\
    own_get scenario_keys proto_name = None.
Proof.
  apply (addBtn_onclick_cannot_add_proto (js "__proto__") (js "fal-bbb222")
           scenario_ui scenario_keys); by vm_compute.
Defined.

(** X7.  The Add button never takes anything away: whatever the inputs,
    every name stored before is stored after, every entry under another
    name than the one typed keeps its secret, and the active name is
    not written. *)
Theorem addBtn_onclick_never_removes (nameInput keyInput : jstring) (u : ui)
    (keys : credentials) :
  loadCredentials (store u) = Some keys ->
  exists u' keys',
    addBtn_onclick nameInput keyInput u = Some u' /\
    loadCredentials (store u') = Some keys' /\
    (forall x, x ∈ Object_keys keys -> x ∈ Object_keys keys') /\
    (forall k, k <> trim nameInput -> own_get keys' k = own_get keys k) /\
    getItem (store u') ACTIVE_STORAGE = getItem (store u) ACTIVE_STORAGE.
Proof.
  intros Hload.
  destruct (addBtn_onclick_cases nameInput keyInput u keys Hload)
    as (u' & Hadd & [[_ ->]|(_ & Hst & Hload' & _)]).
  - by exists u, keys.
  - exists u', (Obj.set keys (trim nameInput) (trim keyInput)).
    split; [done|]. split; [done|].
    split; [intros x; apply set_keys_mono|].
    split; [intros k Hne; by apply set_get_other|].
    rewrite Hst. apply getItem_active_saveKeys.
Qed.

Lemma addBtn_onclick_never_removes_witness :
  exists u' keys',
    addBtn_onclick (js "dev") (js "fal-bbb222") scenario_ui = Some u' /\
    loadCredentials (store u') = Some keys' /\
    (forall x, x ∈ Object_keys scenario_keys -> x ∈ Object_keys keys') /\
    (forall k, k <> trim (js "dev") ->
               own_get keys' k = own_get scenario_keys k) /\
    getItem (store u') ACTIVE_STORAGE
    = getItem (store scenario_ui) ACTIVE_STORAGE.
Proof.
  apply (addBtn_onclick_never_removes (js "dev") (js "fal-bbb222")
           scenario_ui scenario_keys).
  by vm_compute.
Defined.

(** X8.  A Remove button pressed again, or pressed on a line whose
    entry is gone: the second click changes neither the stored set nor
    the active name, and a name that is not stored leaves the set as it
    is. *)
Theorem del_onclick_again_changes_nothing (n : jstring) (u : ui)
    (keys : credentials) :
  loadCredentials (store u) = Some keys ->
  exists u' u'',
    del_onclick n u = Some u' /\
    del_onclick n u' = Some u'' /\
    loadCredentials (store u'') = loadCredentials (store u') /\
    getActiveKeyName (store u'') = getActiveKeyName (store u') /\
    (has_own keys n = false -> loadCredentials (store u') = Some keys).
Proof.
  intros Hload.
  pose proof (loadCredentials_well_formed _ _ Hload) as Hwf.
  destruct (del_onclick_store n u keys Hload) as (u' & Hdel & _ & Hload' & _).
  destruct (del_onclick_store n u' _ Hload') as (u'' & Hdel' & _ & Hload'' & _).
  exists u', u''. split; [done|]. split; [done|].
  split; [|split].
  - rewrite Hload'', Hload'. f_equal. apply delete_own_absent.
    by apply delete_own_gone.
  - destruct (del_onclick_active n u u' keys Hload Hdel) as [Ha _].
    destruct (del_onclick_active n u' u'' _ Hload' Hdel') as [Ha' _].
    rewrite Ha', Ha.
    destruct (str_eqb (getActiveKeyName (store u)) n) eqn:E.
    + by destruct (str_eqb [] n).
    + by rewrite E.
  - intros Hown. rewrite Hload'. f_equal. apply delete_own_absent.
    unfold has_own in Hown. by destruct (own_get keys n).
Qed.

Lemma del_onclick_again_changes_nothing_witness :
  exists u' u'',
    del_onclick (js "prod") scenario_ui = Some u' /\
    del_onclick (js "prod") u' = Some u'' /\
    loadCredentials (store u'') = loadCredentials (store u') /\
    getActiveKeyName (store u'') = getActiveKeyName (store u') /\
    (has_own scenario_keys (js "prod") = false ->
     loadCredentials (store u') = Some scenario_keys).
Proof.
  apply (del_onclick_again_changes_nothing (js "prod") scenario_ui
           scenario_keys).
  by vm_compute.
Defined.

(** ** More on the widgets *)

Module WidgetFacts.
Import Obj JSON Async KeyManager.
Import ObjFacts StoreFacts AsyncFacts DialogFacts MoreObjFacts.

Lemma array_includes_elem (names : list jstring) (x : jstring) :
  array_includes names x = true <-> x ∈ names.
Proof.
  unfold array_includes. rewrite existsb_exists. split.
  - intros (y & Hy & E). apply str_eqb_true in E. subst.
    by apply list_elem_of_In.
  - intros H. exists x. split; [by apply list_elem_of_In|apply str_eqb_refl].
Qed.

Lemma find_widget_assign_other (name name' : jstring)
    (values : list jstring) (v : value) (ws : list widget) :
  name' <> name ->
  find_widget name' (assign_widget name values v ws) = find_widget name' ws.
Proof.
  intros Hne. unfold find_widget.
  induction ws as [|w ws IH]; [done|]. cbn.
  destruct (str_eqb (w_name w) name) eqn:E; cbn.
  - apply str_eqb_true in E.
    assert (E' : str_eqb (w_name w) name' = false)
      by (apply str_eqb_false; congruence).
    by rewrite E'.
  - by rewrite IH.
Qed.

Lemma assign_widget_names (name : jstring) (values : list jstring) (v : value)
    (ws : list widget) :
  w_name <$> assign_widget name values v ws = w_name <$> ws.
Proof.
  induction ws as [|w ws IH]; [done|]. cbn.
  destruct (str_eqb (w_name w) name); cbn; by rewrite ?IH.
Qed.

Lemma assign_widget_again (name : jstring) (values : list jstring) (v : value)
    (ws : list widget) :
  assign_widget name values v (assign_widget name values v ws)
  = assign_widget name values v ws.
Proof.
  induction ws as [|w ws IH]; [done|]. cbn.
  destruct (str_eqb (w_name w) name) eqn:E; cbn; rewrite E; [done|].
  by rewrite IH.
Qed.

Lemma find_widget_assign_value (name : jstring) (v : value) (ws : list widget)
    (w : widget) :
  find_widget name ws = Some w ->
  find_widget name (assign_value name v ws)
  = Some {| w_name := w_name w; w_value := v; w_values := w_values w |}.
Proof.
  unfold find_widget.
  induction ws as [|w0 ws IH]; [done|].
  cbn. destruct (str_eqb (w_name w0) name) eqn:E.
  - intros [= <-]. cbn. by rewrite E.
  - intros H. cbn. rewrite E. by apply IH.
Qed.

Lemma find_widget_assign_value_other (name name' : jstring) (v : value)
    (ws : list widget) :
  name' <> name ->
  find_widget name' (assign_value name v ws) = find_widget name' ws.
Proof.
  intros Hne. unfold find_widget.
  induction ws as [|w ws IH]; [done|]. cbn.
  destruct (str_eqb (w_name w) name) eqn:E; cbn.
  - apply str_eqb_true in E.
    assert (E' : str_eqb (w_name w) name' = false)
      by (apply str_eqb_false; congruence).
    by rewrite E'.
  - by rewrite IH.
Qed.

(** The value the selector gets is one of the options it gets. *)
Lemma selector_value_offered (names : list jstring) (active : jstring) :
  let options := match names with [] => [NO_KEYS] | _ :: _ => names end in
  exists v,
    (if array_includes names active then VString active else first_of options)
    = VString v /\ v ∈ options.
Proof.
  cbv zeta. destruct (array_includes names active) eqn:E.
  - apply array_includes_elem in E. exists active. split; [done|].
    by destruct names; [apply elem_of_nil in E|].
  - destruct names as [|n names]; eexists; (split; [done|]); left.
Qed.

(** The refresh, written out. *)
Lemma refreshNodeWidgets_result (nd : node) (st : storage)
    (keys : credentials) :
  loadCredentials st = Some keys ->
  refreshNodeWidgets (Some nd) st
  = Some (Some
      {| widgets :=
           match widgets nd with
           | None => None
           | Some ws =>
               match find_widget KEY_SELECTOR ws with
               | None => Some ws
               | Some _ =>
                   Some (assign_widget KEY_SELECTOR
                           match Object_keys keys with
                           | [] => [NO_KEYS]
                           | _ :: _ => Object_keys keys
                           end
                           (if array_includes (Object_keys keys)
                                 (getActiveKeyName st)
                            then VString (getActiveKeyName st)
                            else first_of
                                   match Object_keys keys with
                                   | [] => [NO_KEYS]
                                   | _ :: _ => Object_keys keys
                                   end) ws)
               end
           end;
         redraws := S (redraws nd) |}).
Proof. intros Hload. unfold refreshNodeWidgets. by rewrite Hload. Qed.

End WidgetFacts.

Import WidgetFacts.

(** X9.  After a refresh the selector always shows one of its own
    options: the list of options is never empty and the value is a
    string that is in it, whatever the active name is, stored or
    dangling. *)
Theorem refreshNodeWidgets_value_is_an_option (nd : node) (ws : list widget)
    (w : widget) (st : storage) (keys : credentials) :
  loadCredentials st = Some keys ->
  widgets nd = Some ws ->
  find_widget KEY_SELECTOR ws = Some w ->
  exists nd' ws' w' v,
    refreshNodeWidgets (Some nd) st = Some (Some nd') /\
    widgets nd' = Some ws' /\
    find_widget KEY_SELECTOR ws' = Some w' /\
    w_value w' = VString v /\
    v ∈ w_values w'.
Proof.
  intros Hload Hws Hfind.
  destruct (refreshNodeWidgets_selector nd ws w st keys Hload Hws Hfind)
    as (nd' & ws' & w' & Hr & Hws' & Hfind' & Hvals & Hval).
  destruct (selector_value_offered (Object_keys keys) (getActiveKeyName st))
    as (v & Hv & Hin).
  exists nd', ws', w', v. repeat (split; [done|]).
  rewrite Hval, Hvals. by split.
Qed.

Lemma refreshNodeWidgets_value_is_an_option_witness :
  exists nd' ws' w' v,
    refreshNodeWidgets (Some scenario_node)
      (setActiveKeyName (js "gone") scenario_store) = Some (Some nd') /\
    widgets nd' = Some ws' /\
    find_widget KEY_SELECTOR ws' = Some w' /\
    w_value w' = VString v /\
    v ∈ w_values w'.
Proof.
  apply (refreshNodeWidgets_value_is_an_option scenario_node scenario_widgets
           {| w_name := KEY_SELECTOR; w_value := VString (js "prod");
              w_values := [js "prod"] |}
           (setActiveKeyName (js "gone") scenario_store) scenario_keys);
    by vm_compute.
Defined.

(** X10.  The refresh touches the selector and nothing else: the node
    is redrawn once, it has the same widgets under the same names in
    the same order, every widget under another name is as it was, and a
    node without widgets or without a selector keeps its widgets
    untouched. *)
Theorem refreshNodeWidgets_touches_only_selector (nd : node) (st : storage)
    (keys : credentials) :
  loadCredentials st = Some keys ->
  exists nd',
    refreshNodeWidgets (Some nd) st = Some (Some nd') /\
    redraws nd' = S (redraws nd) /\
    (widgets nd = None -> widgets nd' = None) /\
    (forall ws,
       widgets nd = Some ws ->
       exists ws',
         widgets nd' = Some ws' /\
         w_name <$> ws' = w_name <$> ws /\
         (forall name, name <> KEY_SELECTOR ->
                       find_widget name ws' = find_widget name ws) /\
         (find_widget KEY_SELECTOR ws = None -> ws' = ws)).
Proof.
  intros Hload. rewrite (refreshNodeWidgets_result nd st keys Hload).
  eexists. split; [done|]. cbn [redraws widgets]. split; [done|].
  split; [by intros ->|].
  intros ws ->. destruct (find_widget KEY_SELECTOR ws) eqn:Hfind.
  - eexists. split; [done|]. split; [apply assign_widget_names|].
    split; [|done]. intros name Hne. by apply find_widget_assign_other.
  - by exists ws.
Qed.

Lemma refreshNodeWidgets_touches_only_selector_witness :
  exists nd',
    refreshNodeWidgets (Some scenario_node) scenario_store = Some (Some nd') /\
    redraws nd' = S (redraws scenario_node) /\
    exists ws',
      widgets nd' = Some ws' /\
      find_widget STATUS_DISPLAY ws'
      = find_widget STATUS_DISPLAY scenario_widgets.
Proof.
  destruct (refreshNodeWidgets_touches_only_selector scenario_node
              scenario_store scenario_keys)
    as (nd' & Hr & Hd & _ & H); [by vm_compute|].
  destruct (H scenario_widgets) as (ws' & Hws' & _ & Hother & _); [done|].
  exists nd'. split; [done|]. split; [done|].
  exists ws'. split; [done|]. by apply Hother.
Defined.

(** X11.  Refreshing again, with the storage unchanged, changes no
    widget: only the count of redraws goes up. *)
Theorem refreshNodeWidgets_again_changes_nothing (nd : node) (st : storage)
    (keys : credentials) :
  loadCredentials st = Some keys ->
  exists nd' nd'',
    refreshNodeWidgets (Some nd) st = Some (Some nd') /\
    refreshNodeWidgets (Some nd') st = Some (Some nd'') /\
    widgets nd'' = widgets nd' /\
    redraws nd'' = S (S (redraws nd)).
Proof.
  intros Hload.
  rewrite (refreshNodeWidgets_result nd st keys Hload).
  eexists. eexists. split; [done|].
  rewrite (refreshNodeWidgets_result _ st keys Hload).
  split; [done|]. cbn [widgets redraws]. split; [|done].
  destruct (widgets nd) as [ws|]; [|done].
  destruct (find_widget KEY_SELECTOR ws) as [w|] eqn:Hfind.
  - rewrite (find_widget_assign _ _ _ _ _ Hfind).
    by rewrite assign_widget_again.
  - by rewrite Hfind.
Qed.

Lemma refreshNodeWidgets_again_changes_nothing_witness :
  exists nd' nd'',
    refreshNodeWidgets (Some scenario_node) scenario_store = Some (Some nd') /\
    refreshNodeWidgets (Some nd') scenario_store = Some (Some nd'') /\
    widgets nd'' = widgets nd' /\
    redraws nd'' = S (S (redraws scenario_node)).
Proof.
  apply (refreshNodeWidgets_again_changes_nothing scenario_node scenario_store
           scenario_keys).
  by vm_compute.
Defined.

(** X12.  [nodeCreated] and [refreshNodeWidgets] agree: on the same
    storage the selector that [nodeCreated] asks for has the options
    and the value that a refresh would set, and that value is one of
    the options.  A node of another class gets nothing. *)
Theorem nodeCreated_selector_agrees_with_refresh (nd : node)
    (ws : list widget) (w : widget) (st : storage) (keys : credentials) :
  loadCredentials st = Some keys ->
  widgets nd = Some ws ->
  find_widget KEY_SELECTOR ws = Some w ->
  (forall comfyClass st0,
     comfyClass <> NODE_CLASS -> nodeCreated comfyClass st0 = Some Skipped) /\
  exists combo others pushed nd' ws' w' v,
    nodeCreated NODE_CLASS st = Some (Created (combo :: others) pushed false) /\
    a_type combo = js "combo" /\
    a_callback combo = SelectKey /\
    w_name (a_widget combo) = KEY_SELECTOR /\
    Forall (fun a => w_name (a_widget a) <> KEY_SELECTOR) others /\
    refreshNodeWidgets (Some nd) st = Some (Some nd') /\
    widgets nd' = Some ws' /\
    find_widget KEY_SELECTOR ws' = Some w' /\
    w_values w' = w_values (a_widget combo) /\
    w_value w' = w_value (a_widget combo) /\
    w_value w' = VString v /\
    v ∈ w_values w'.
Proof.
  intros Hload Hws Hfind. split.
  { intros cls st0 Hne. unfold nodeCreated. apply str_eqb_false in Hne.
    by rewrite Hne. }
  destruct (refreshNodeWidgets_selector nd ws w st keys Hload Hws Hfind)
    as (nd' & ws' & w' & Hr & Hws' & Hfind' & Hvals & Hval).
  destruct (selector_value_offered (Object_keys keys) (getActiveKeyName st))
    as (v & Hv & Hin).
  unfold nodeCreated. rewrite str_eqb_refl, Hload. cbn [negb].
  eexists _, _, _, nd', ws', w', v. split; [done|].
  cbn [a_type a_callback a_widget w_name w_values w_value].
  repeat (split; [done|]).
  split; [repeat constructor; by vm_compute|].
  repeat (split; [done|]).
  split; [by rewrite Hval, Hvals|].
  rewrite Hval, Hvals. by split.
Qed.

Lemma nodeCreated_selector_agrees_with_refresh_witness :
  nodeCreated (js "KSampler") scenario_store = Some Skipped /\
  exists combo others pushed,
    nodeCreated NODE_CLASS scenario_store
    = Some (Created (combo :: others) pushed false) /\
    w_values (a_widget combo) = [js "prod"] /\
    w_value (a_widget combo) = VString (js "prod").
Proof.
  destruct (nodeCreated_selector_agrees_with_refresh scenario_node
              scenario_widgets
              {| w_name := KEY_SELECTOR; w_value := VString (js "prod");
                 w_values := [js "prod"] |}
              scenario_store scenario_keys)
    as (Hskip & combo & others & pushed & nd' & ws' & w' & v & Hc & _);
    [by vm_compute|done|by vm_compute|].
  split; [apply Hskip; by vm_compute|].
  exists combo, others, pushed. split; [exact Hc|].
  vm_compute in Hc. injection Hc as <- _ _. by vm_compute.
Defined.

(** X13.  The push that [nodeCreated] starts without awaiting it: it is
    started only with an active name, and whenever it is started it
    makes exactly one request; with an active name and no push started,
    a push would have made none; and since the promise of a push is
    always fulfilled, the one nobody awaits never ends in a rejection
    nobody handles. *)
Theorem nodeCreated_push_guard {Arg Res : Type} (e : env Arg Res)
    (st : storage) (keys : credentials) :
  loadCredentials st = Some keys ->
  exists ws pushed push,
    nodeCreated NODE_CLASS st = Some (Created ws pushed false) /\
    pushActiveKeyToServer st = Some push /\
    (run e push).2 = Fulfilled tt /\
    (getActiveKeyName st = [] -> pushed = false) /\
    (pushed = true -> network_calls (run e push).1 = 1%nat) /\
    (pushed = false -> getActiveKeyName st <> [] ->
     network_calls (run e push).1 = 0%nat).
Proof.
  intros Hload.
  destruct (pushActiveKeyToServer_run e st keys Hload) as (push & Hp & Hr).
  unfold nodeCreated. rewrite str_eqb_refl, Hload. cbn [negb].
  eexists _, _, push. split; [done|]. split; [done|]. rewrite Hr.
  cbn [fst snd]. split; [done|]. cbv zeta.
  split; [by intros ->|].
  destruct (getActiveKeyName st) as [|a n] eqn:Ea.
  { split; [done|]. by intros _ H. }
  cbn [truthy_string andb].
  destruct (Obj.truthy _); cbn [negb]; split; try done.
  intros _. by destruct (net e _).
Qed.

Lemma nodeCreated_push_guard_witness :
  exists ws pushed push,
    nodeCreated NODE_CLASS scenario_store = Some (Created ws pushed false) /\
    pushActiveKeyToServer scenario_store = Some push /\
    (run scenario_env push).2 = Fulfilled tt /\
    (getActiveKeyName scenario_store = [] -> pushed = false) /\
    (pushed = true -> network_calls (run scenario_env push).1 = 1%nat) /\
    (pushed = false -> getActiveKeyName scenario_store <> [] ->
     network_calls (run scenario_env push).1 = 0%nat).
Proof.
  apply (nodeCreated_push_guard scenario_env scenario_store scenario_keys).
  by vm_compute.
Defined.

(** X14.  The status event writes the status line and nothing else.  The
    graph keeps its nodes, in order and with their types; a node of
    another type is not touched; in a node of the class the value of
    [status_display] becomes [Active: ] and the name, its other fields
    and every other widget, the selector among them, stay as they were,
    and the node is redrawn once; a node of the class without that
    widget is neither changed nor redrawn. *)
Theorem on_key_status_writes_only_status (active_key_name : jstring)
    (nodes : list graph_node) (i : nat) (n : graph_node) :
  nodes !! i = Some n ->
  length (on_key_status active_key_name nodes) = length nodes /\
  exists n',
    on_key_status active_key_name nodes !! i = Some n' /\
    node_type n' = node_type n /\
    (node_type n <> NODE_CLASS -> n' = n) /\
    (widgets (node_body n) = None -> n' = n) /\
    (forall ws, widgets (node_body n) = Some ws ->
                find_widget STATUS_DISPLAY ws = None -> n' = n) /\
    (forall ws w,
       node_type n = NODE_CLASS ->
       widgets (node_body n) = Some ws ->
       find_widget STATUS_DISPLAY ws = Some w ->
       exists ws',
         widgets (node_body n') = Some ws' /\
         redraws (node_body n') = S (redraws (node_body n)) /\
         find_widget STATUS_DISPLAY ws'
         = Some {| w_name := w_name w;
                   w_value := VString (js "Active: " ++ active_key_name);
                   w_values := w_values w |} /\
         (forall name, name <> STATUS_DISPLAY ->
                       find_widget name ws' = find_widget name ws)).
Proof.
  intros Hi. unfold on_key_status. split; [apply length_fmap|].
  rewrite list_lookup_fmap, Hi. cbn [fmap option_fmap option_map].
  eexists. split; [done|].
  destruct n as [ty [wsn rd]]. cbn [node_type node_body widgets redraws].
  destruct (str_eqb ty NODE_CLASS) eqn:E.
  - cbn [node_type node_body]. split; [done|].
    split; [intros Hne; apply str_eqb_true in E; done|].
    unfold show_status. cbn [widgets redraws].
    split; [by intros ->|].
    split; [by intros ws -> ->|].
    intros ws w _ -> Hfind. rewrite Hfind. cbn [widgets redraws].
    eexists. split; [done|]. split; [done|].
    split; [by apply find_widget_assign_value|].
    intros name Hne. by apply find_widget_assign_value_other.
  - cbn [node_type node_body]. split; [done|]. split; [done|].
    split; [done|]. split; [done|].
    intros ws w Hty. apply str_eqb_false in E. done.
Qed.

Lemma on_key_status_writes_only_status_witness :
  exists n' ws',
    on_key_status (js "prod")
      [GraphNode (js "KSampler") scenario_node;
       GraphNode NODE_CLASS scenario_node] !! 1%nat = Some n' /\
    widgets (node_body n') = Some ws' /\
    find_widget KEY_SELECTOR ws' = find_widget KEY_SELECTOR scenario_widgets.
Proof.
  destruct (on_key_status_writes_only_status (js "prod")
              [GraphNode (js "KSampler") scenario_node;
               GraphNode NODE_CLASS scenario_node]
              1 (GraphNode NODE_CLASS scenario_node))
    as (_ & n' & Hn' & _ & _ & _ & _ & H); [done|].
  destruct (H scenario_widgets
              {| w_name := STATUS_DISPLAY;
                 w_value := VString (js "Active: prod"); w_values := [] |})
    as (ws' & Hws' & _ & _ & Hother); [done|done|by vm_compute|].
  exists n', ws'. split; [done|]. split; [done|].
  apply Hother. by vm_compute.
Defined.

(** ** More on the dialog and the push *)

Module FlowFacts.
Import Obj JSON Async KeyManager.
Import ObjFacts JSONFacts StoreFacts AsyncFacts DialogFacts.
Import MoreObjFacts HandlerFacts WidgetFacts.

Lemma rows_depend_on_first_8 (keys keys' : credentials) :
  Object_keys keys = Object_keys keys' ->
  (slice0 8 ∘ snd) <$> keys = (slice0 8 ∘ snd) <$> keys' ->
  (fun kv : jstring * jstring =>
     {| info := kv.1 ++ js "  (" ++ (slice0 8 kv.2 ++ js "...") ++ js ")";
        remove_name := kv.1 |}) <$> keys
  = (fun kv : jstring * jstring =>
     {| info := kv.1 ++ js "  (" ++ (slice0 8 kv.2 ++ js "...") ++ js ")";
        remove_name := kv.1 |}) <$> keys'.
Proof.
  unfold Object_keys. revert keys'.
  induction keys as [|[n s] keys IH]; intros [|[n' s'] keys']; try done.
  cbn. intros [= -> Hn] [= Hs Hs']. rewrite Hs. f_equal. by apply IH.
Qed.

(** The run of the patched [queuePrompt] when the active name has a
    secret that is not empty: the request with that secret and that
    name, its settlement, then the host's function. *)
Lemma queuePrompt_sends_active {Arg Res : Type} (e : env Arg Res)
    (args : list Arg) (st : storage) (keys : credentials) (s : jstring) :
  loadCredentials st = Some keys ->
  own_get keys (getActiveKeyName st) = Some s ->
  s <> [] ->
  exists call tr,
    queuePrompt (installQueueHook (App false origQueue)) args st = Some call /\
    run e call
    = (EvFetch (set_key_request (VString s) (getActiveKeyName st))
         :: tr ++ [EvOrigQueue args; EvOrigQueueSettled (host e args)],
       host e args) /\
    network_calls tr = 0%nat.
Proof.
  intros Hload Hown Hs.
  destruct (queuePrompt_hooked_run e st keys args Hload)
    as (push & call & tr & Hp & Hr & Hq & Hc).
  destruct (pushActiveKeyToServer_run e st keys Hload) as (push' & Hp' & Hr').
  rewrite Hp in Hp'. injection Hp' as <-. rewrite Hr in Hr'.
  injection Hr' as Htr. cbv zeta in Htr.
  unfold Obj.get in Htr. rewrite Hown in Htr.
  destruct s as [|c s]; [done|]. cbn [Obj.truthy truthy_string negb] in Htr.
  exists call. rewrite Hc, Htr.
  destruct (net e _); eexists; (split; [done|]); split; done.
Qed.

(** The run of the patched [queuePrompt] when the active name is empty
    and no entry has the empty name: the host's function and nothing
    before it. *)
Lemma queuePrompt_sends_nothing {Arg Res : Type} (e : env Arg Res)
    (args : list Arg) (st : storage) (keys : credentials) :
  loadCredentials st = Some keys ->
  getActiveKeyName st = [] ->
  own_get keys [] = None ->
  exists call,
    queuePrompt (installQueueHook (App false origQueue)) args st = Some call /\
    run e call
    = ([EvOrigQueue args; EvOrigQueueSettled (host e args)], host e args).
Proof.
  intros Hload Hact Hown.
  destruct (queuePrompt_hooked_run e st keys args Hload)
    as (push & call & tr & Hp & Hr & Hq & Hc).
  rewrite (pushActiveKeyToServer_no_key st keys Hload) in Hp;
    [|by rewrite Hact..].
  injection Hp as <-. cbn in Hr. injection Hr as <-.
  by exists call.
Qed.

Lemma loadCredentials_key_selector_callback (v : jstring) (st : storage) :
  loadCredentials (key_selector_callback v st) = loadCredentials st.
Proof.
  unfold key_selector_callback.
  destruct (_ && _); [apply loadCredentials_setActiveKeyName|done].
Qed.

Lemma render_key_selector_callback (v : jstring) (st : storage) :
  render (key_selector_callback v st) = render st.
Proof. unfold render. by rewrite loadCredentials_key_selector_callback. Qed.

End FlowFacts.

Import FlowFacts.

(** X15.  The dialog shows nothing of a secret past its first 8 code
    units: two stored sets with the same names, whose secrets agree on
    their first 8 code units, are rendered the same. *)
Theorem render_hides_the_rest (st st' : storage) (keys keys' : credentials) :
  loadCredentials st = Some keys ->
  loadCredentials st' = Some keys' ->
  Object_keys keys = Object_keys keys' ->
  (slice0 8 ∘ snd) <$> keys = (slice0 8 ∘ snd) <$> keys' ->
  render st = render st'.
Proof.
  intros Hload Hload' Hn Hs.
  rewrite (render_listing st keys Hload), (render_listing st' keys' Hload').
  f_equal. unfold Object_keys in Hn.
  destruct keys as [|kv keys], keys' as [|kv' keys']; try done.
  f_equal. by apply rows_depend_on_first_8.
Qed.

Lemma render_hides_the_rest_witness :
  render scenario_store
  = render (saveKeys [(js "prod", js "fal-aaa1-another-tail")] ∅).
Proof.
  apply (render_hides_the_rest scenario_store
           (saveKeys [(js "prod", js "fal-aaa1-another-tail")] ∅)
           scenario_keys [(js "prod", js "fal-aaa1-another-tail")]);
    by vm_compute.
Defined.

(** X16.  White space around what is typed does not count: the Add
    button does with two inputs what it does with the same inputs
    trimmed, so the names and secrets it stores have no white space at
    either end. *)
Theorem addBtn_onclick_ignores_outer_space (nameInput keyInput : jstring)
    (u : ui) :
  addBtn_onclick nameInput keyInput u
  = addBtn_onclick (trim nameInput) (trim keyInput) u /\
  trim (trim nameInput) = trim nameInput /\
  trim (trim keyInput) = trim keyInput.
Proof.
  split; [|split; apply trim_idempotent].
  unfold addBtn_onclick. by rewrite !trim_idempotent.
Qed.

(** X17.  Pick, then queue: after the selector delivered the name of a
    stored entry whose secret is not empty, the next [queuePrompt]
    sends one request, with that secret and that name, and then calls
    the host's function. *)
Theorem select_then_queue_sends_selected {Arg Res : Type} (e : env Arg Res)
    (args : list Arg) (v s : jstring) (st : storage) (keys : credentials) :
  loadCredentials st = Some keys ->
  own_get keys v = Some s ->
  s <> [] ->
  v <> [] ->
  v <> NO_KEYS ->
  exists call tr,
    queuePrompt (installQueueHook (App false origQueue)) args
      (key_selector_callback v st) = Some call /\
    run e call
    = (EvFetch (set_key_request (VString s) v)
         :: tr ++ [EvOrigQueue args; EvOrigQueueSettled (host e args)],
       host e args) /\
    network_calls tr = 0%nat.
Proof.
  intros Hload Hown Hs Hv Hno.
  assert (Hact : getActiveKeyName (key_selector_callback v st) = v).
  { unfold key_selector_callback. destruct v as [|c v']; [done|].
    apply str_eqb_false in Hno. cbn [truthy_string andb]. rewrite Hno.
    apply getActiveKeyName_setActiveKeyName. }
  destruct (queuePrompt_sends_active e args (key_selector_callback v st)
              keys s) as (call & tr & Hq & Hr & Hn); try done.
  - by rewrite loadCredentials_key_selector_callback.
  - by rewrite Hact.
  - exists call, tr. by rewrite Hact in Hr.
Qed.

Lemma select_then_queue_sends_selected_witness :
  exists call tr,
    queuePrompt (installQueueHook (App false origQueue)) [7%nat]
      (key_selector_callback (js "prod")
         (saveKeys scenario_keys ∅)) = Some call /\
    run scenario_env call
    = (EvFetch (set_key_request (VString (js "fal-aaa111")) (js "prod"))
         :: tr ++ [EvOrigQueue [7%nat];
                   EvOrigQueueSettled (host scenario_env [7%nat])],
       host scenario_env [7%nat]) /\
    network_calls tr = 0%nat.
Proof.
  apply (select_then_queue_sends_selected scenario_env [7%nat] (js "prod")
           (js "fal-aaa111") (saveKeys scenario_keys ∅) scenario_keys);
    by vm_compute.
Defined.

(** X18.  Remove the active entry, then queue: when no entry has the
    empty name, the [queuePrompt] after the removal of the active entry
    sends nothing and calls the host's function straight away. *)
Theorem remove_active_then_queue_sends_nothing {Arg Res : Type}
    (e : env Arg Res) (args : list Arg) (u : ui) (keys : credentials) :
  loadCredentials (store u) = Some keys ->
  own_get keys [] = None ->
  exists u' call,
    del_onclick (getActiveKeyName (store u)) u = Some u' /\
    getActiveKeyName (store u') = [] /\
    queuePrompt (installQueueHook (App false origQueue)) args (store u')
    = Some call /\
    run e call
    = ([EvOrigQueue args; EvOrigQueueSettled (host e args)], host e args).
Proof.
  intros Hload Hown.
  pose proof (loadCredentials_well_formed _ _ Hload) as Hwf.
  destruct (del_onclick_store (getActiveKeyName (store u)) u keys Hload)
    as (u' & Hdel & _ & Hload' & _).
  destruct (del_onclick_active _ u u' keys Hload Hdel) as [Hact _].
  rewrite str_eqb_refl in Hact.
  destruct (queuePrompt_sends_nothing e args (store u') _ Hload' Hact)
    as (call & Hq & Hr).
  - destruct (decide (getActiveKeyName (store u) = [])) as [E|E].
    + rewrite E. by apply delete_own_gone.
    + rewrite delete_own_other; [done|]. congruence.
  - by exists u', call.
Qed.

Lemma remove_active_then_queue_sends_nothing_witness :
  exists u' call,
    del_onclick (getActiveKeyName (store scenario_ui)) scenario_ui = Some u' /\
    getActiveKeyName (store u') = [] /\
    queuePrompt (installQueueHook (App false origQueue)) [7%nat] (store u')
    = Some call /\
    run scenario_env call
    = ([EvOrigQueue [7%nat]; EvOrigQueueSettled (host scenario_env [7%nat])],
       host scenario_env [7%nat]).
Proof.
  apply (remove_active_then_queue_sends_nothing scenario_env [7%nat]
           scenario_ui scenario_keys); by vm_compute.
Defined.

(** X19.  What the server can read: when the push sends, to
    [/fal-api/set-key] by POST as JSON, the body parses back as the
    object with exactly the two properties [key], the stored secret of
    the active entry, and [name], the active name, whatever code units
    the two contain. *)
Theorem pushActiveKeyToServer_body_decodes {Arg Res : Type} (e : env Arg Res)
    (st : storage) (keys : credentials) (s : jstring) :
  loadCredentials st = Some keys ->
  own_get keys (getActiveKeyName st) = Some s ->
  s <> [] ->
  exists push req tr,
    pushActiveKeyToServer st = Some push /\
    run e push = (EvFetch req :: tr, Fulfilled tt) /\
    url req = js "/fal-api/set-key" /\
    method req = js "POST" /\
    headers req = [(js "Content-Type", js "application/json")] /\
    JSON.parse (body req)
    = Some (JObj [(js "key", JStr s);
                  (js "name", JStr (getActiveKeyName st))]).
Proof.
  intros Hload Hown Hs.
  destruct (pushActiveKeyToServer_run e st keys Hload) as (push & Hp & Hr).
  cbv zeta in Hr. unfold Obj.get in Hr. rewrite Hown in Hr.
  destruct s as [|c s]; [done|]. cbn [Obj.truthy truthy_string negb] in Hr.
  exists push, (set_key_request (VString (c :: s)) (getActiveKeyName st)).
  assert (Hbody :
    JSON.parse (body (set_key_request (VString (c :: s)) (getActiveKeyName st)))
    = Some (JObj [(js "key", JStr (c :: s));
                  (js "name", JStr (getActiveKeyName st))])).
  { apply (parse_stringify
             [(js "key", c :: s); (js "name", getActiveKeyName st)]).
    by vm_compute. }
  destruct (net e _); eexists; (split; [done|]); (split; [exact Hr|]);
    by repeat split.
Qed.

Lemma pushActiveKeyToServer_body_decodes_witness :
  exists push req tr,
    pushActiveKeyToServer scenario_store = Some push /\
    run scenario_env push = (EvFetch req :: tr, Fulfilled tt) /\
    url req = js "/fal-api/set-key" /\
    method req = js "POST" /\
    headers req = [(js "Content-Type", js "application/json")] /\
    JSON.parse (body req)
    = Some (JObj [(js "key", JStr (js "fal-aaa111"));
                  (js "name", JStr (getActiveKeyName scenario_store))]).
Proof.
  apply (pushActiveKeyToServer_body_decodes scenario_env scenario_store
           scenario_keys (js "fal-aaa111")); by vm_compute.
Defined.

(** ** The state the handlers keep *)

Module InvariantFacts.
Import Obj JSON Async KeyManager.
Import ObjFacts JSONFacts StoreFacts AsyncFacts DialogFacts.
Import MoreObjFacts HandlerFacts WidgetFacts FlowFacts.

Lemma own_get_In {A : Type} (props : list (jstring * A)) (k : jstring) (v : A) :
  own_get props k = Some v -> (k, v) ∈ props.
Proof.
  induction props as [|[k' v'] rest IH]; [done|]. cbn.
  destruct (str_eqb k' k) eqn:E.
  - apply str_eqb_true in E. intros [= ->]. subst. left.
  - intros H. right. by apply IH.
Qed.

Lemma own_get_of_key {A : Type} (props : list (jstring * A)) (k : jstring) :
  k ∈ Object_keys props -> exists v, own_get props k = Some v.
Proof.
  intros H. apply has_own_key in H. unfold has_own in H.
  destruct (own_get props k) as [v|]; [by exists v|done].
Qed.

Lemma no_empty_name (keys : credentials) :
  Forall (fun kv => kv.1 <> [] /\ kv.2 <> []) keys -> own_get keys [] = None.
Proof.
  intros H. destruct (own_get keys []) as [s|] eqn:E; [|done].
  apply own_get_In in E. rewrite Forall_forall in H.
  by destruct (H _ E).
Qed.

Lemma consistent_add (nameInput keyInput : jstring) (u : ui) :
  consistent u ->
  exists u', addBtn_onclick nameInput keyInput u = Some u' /\ consistent u'.
Proof.
  intros Hc.
  pose proof Hc as (keys & nd & ws & w & Hload & Hne & Hact & Hr & Hb & Hws
                    & Hfind & Hvals).
  destruct (addBtn_onclick_cases nameInput keyInput u keys Hload)
    as (u' & Hadd & [[_ ->]|((Hn & Hk) & Hst & Hload' & Hr' & Hb')]).
  { by exists u. }
  exists u'. split; [done|].
  rewrite Hb in Hb'.
  destruct (refreshNodeWidgets_selector nd ws w (store u') _ Hload' Hws Hfind)
    as (nd' & ws' & w' & Hrf & Hws' & Hfind' & Hvals' & _).
  rewrite Hrf in Hb'. injection Hb' as Hb'.
  exists (Obj.set keys (trim nameInput) (trim keyInput)), nd', ws', w'.
  split; [done|]. split; [by apply set_Forall|].
  split.
  { rewrite Hst, getActiveKeyName_saveKeys.
    destruct Hact as [Hact|Hact]; [by left|right; by apply set_keys_mono]. }
  by repeat split.
Qed.

Lemma consistent_remove (n : jstring) (u : ui) :
  consistent u -> exists u', del_onclick n u = Some u' /\ consistent u'.
Proof.
  intros (keys & nd & ws & w & Hload & Hne & Hact & Hr & Hb & Hws
          & Hfind & Hvals).
  pose proof (loadCredentials_well_formed _ _ Hload) as Hwf.
  destruct (del_onclick_store n u keys Hload)
    as (u' & Hdel & _ & Hload' & Hr' & Hb').
  destruct (del_onclick_active n u u' keys Hload Hdel) as [Ha _].
  exists u'. split; [done|].
  rewrite Hb in Hb'.
  destruct (refreshNodeWidgets_selector nd ws w (store u') _ Hload' Hws Hfind)
    as (nd' & ws' & w' & Hrf & Hws' & Hfind' & Hvals' & _).
  rewrite Hrf in Hb'. injection Hb' as Hb'.
  exists (delete_own keys n), nd', ws', w'.
  split; [done|]. split; [by apply delete_own_Forall|].
  split.
  { rewrite Ha. destruct (str_eqb (getActiveKeyName (store u)) n) eqn:E;
      [by left|].
    apply str_eqb_false in E.
    destruct Hact as [Hact|Hact]; [by left|right].
    by apply delete_own_keys. }
  by repeat split.
Qed.

Lemma consistent_select (v : jstring) (shown : value) (u : ui) :
  consistent u -> consistent (select v shown u).
Proof.
  intros Hc.
  pose proof Hc as (keys & nd & ws & w & Hload & Hne & Hact & Hr & Hb & Hws
                    & Hfind & Hvals).
  unfold select. rewrite Hb, Hws, Hfind.
  destruct (array_includes (w_values w) v) eqn:Hin; [|done].
  apply array_includes_elem in Hin. rewrite Hvals in Hin.
  eexists keys, _, _, _. cbn [store dialog bound widgets].
  split; [by rewrite loadCredentials_key_selector_callback|].
  split; [done|].
  split.
  { unfold key_selector_callback.
    destruct (truthy_string v && negb (str_eqb v NO_KEYS)) eqn:E; [|done].
    rewrite getActiveKeyName_setActiveKeyName. right.
    apply andb_true_iff in E as [_ E]. apply negb_true_iff, str_eqb_false in E.
    destruct (Object_keys keys); [|done].
    by apply list_elem_of_singleton in Hin. }
  split; [by rewrite render_key_selector_callback|].
  split; [done|]. split; [done|].
  split; [by apply find_widget_assign_value|]. done.
Qed.

(** Every action keeps the state consistent, so every sequence of
    actions does. *)
Lemma consistent_perform_all (acts : list action) :
  forall u, consistent u ->
            exists u', perform_all acts u = Some u' /\ consistent u'.
Proof.
  induction acts as [|a acts IH]; intros u Hc; [by exists u|].
  assert (Hstep : exists u1, perform a u = Some u1 /\ consistent u1).
  { destruct a as [nameInput keyInput|n|v shown]; cbn.
    - by apply consistent_add.
    - by apply consistent_remove.
    - eexists. split; [done|]. by apply consistent_select. }
  destruct Hstep as (u1 & Hp & Hc1). cbn. rewrite Hp. by apply IH.
Qed.

Lemma fresh_ui_consistent : consistent fresh_ui.
Proof.
  exists [], fresh_node. eexists _, _.
  split; [by vm_compute|]. split; [constructor|].
  split; [left; by vm_compute|].
  split; [by vm_compute|]. split; [done|].
  split; [by vm_compute|]. split; by vm_compute.
Qed.

(** In a consistent state the patched [queuePrompt] sends exactly when
    an entry is active, and then the secret of that entry. *)
Lemma consistent_queue {Arg Res : Type} (e : env Arg Res) (args : list Arg)
    (u : ui) :
  consistent u ->
  exists call,
    queuePrompt (installQueueHook (App false origQueue)) args (store u)
    = Some call /\
    (getActiveKeyName (store u) = [] ->
     run e call
     = ([EvOrigQueue args; EvOrigQueueSettled (host e args)], host e args)) /\
    (getActiveKeyName (store u) <> [] ->
     exists keys s tr,
       loadCredentials (store u) = Some keys /\
       own_get keys (getActiveKeyName (store u)) = Some s /\
       s <> [] /\
       run e call
       = (EvFetch (set_key_request (VString s) (getActiveKeyName (store u)))
            :: tr ++ [EvOrigQueue args; EvOrigQueueSettled (host e args)],
          host e args) /\
       network_calls tr = 0%nat).
Proof.
  intros (keys & nd & ws & w & Hload & Hne & Hact & _).
  destruct (decide (getActiveKeyName (store u) = [])) as [E|E].
  - destruct (queuePrompt_sends_nothing e args (store u) keys Hload E)
      as (call & Hq & Hr); [by apply no_empty_name|].
    exists call. by repeat split.
  - destruct Hact as [Hact|Hact]; [done|].
    destruct (own_get_of_key keys _ Hact) as [s Hs].
    assert (Hs' : s <> []).
    { apply own_get_In in Hs. rewrite Forall_forall in Hne.
      by destruct (Hne _ Hs). }
    destruct (queuePrompt_sends_active e args (store u) keys s Hload Hs Hs')
      as (call & tr & Hq & Hr & Hn).
    exists call. split; [done|]. split; [done|]. intros _.
    by exists keys, s, tr.
Qed.

End InvariantFacts.

Import InvariantFacts.

(** X20.  The handlers keep the state consistent.  From a state in
    which the stored set is a credential set with no empty name and no
    empty secret, the active name is empty or the name of an entry, the
    dialog lists the stored set and the selector offers its names,
    every sequence of Add, Remove and selector picks goes through and
    ends in such a state again: the active name never dangles. *)
Theorem handlers_keep_consistent (acts : list action) (u : ui) :
  consistent u ->
  exists u', perform_all acts u = Some u' /\ consistent u'.
Proof. apply consistent_perform_all. Qed.

Lemma handlers_keep_consistent_witness :
  exists u',
    perform_all [Add (js "prod") (js "fal-aaa111");
                 Select (js "prod") (VString (js "prod"));
                 Add (js "dev") (js "fal-bbb222");
                 Remove (js "prod")] fresh_ui = Some u' /\
    consistent u'.
Proof.
  apply (handlers_keep_consistent
           [Add (js "prod") (js "fal-aaa111");
            Select (js "prod") (VString (js "prod"));
            Add (js "dev") (js "fal-bbb222");
            Remove (js "prod")] fresh_ui).
  exists [], fresh_node. eexists _, _.
  split; [by vm_compute|]. split; [constructor|].
  split; [left; by vm_compute|].
  split; [by vm_compute|]. split; [reflexivity|].
  split; [by vm_compute|]. split; by vm_compute.
Defined.

(** X21.  From a fresh start, nothing stored and one node with its
    dialog, after any sequence of Add, Remove and selector picks, the
    patched [queuePrompt] sends exactly when an active name is set: with
    none it calls the host's function and nothing else; with one it
    first sends one request, carrying that name and the stored secret
    of its entry, which is not empty. *)
Theorem queue_after_any_actions {Arg Res : Type} (e : env Arg Res)
    (args : list Arg) (acts : list action) :
  exists u' call,
    perform_all acts fresh_ui = Some u' /\
    queuePrompt (installQueueHook (App false origQueue)) args (store u')
    = Some call /\
    (getActiveKeyName (store u') = [] ->
     run e call
     = ([EvOrigQueue args; EvOrigQueueSettled (host e args)], host e args)) /\
    (getActiveKeyName (store u') <> [] ->
     exists keys s tr,
       loadCredentials (store u') = Some keys /\
       own_get keys (getActiveKeyName (store u')) = Some s /\
       s <> [] /\
       run e call
       = (EvFetch (set_key_request (VString s) (getActiveKeyName (store u')))
            :: tr ++ [EvOrigQueue args; EvOrigQueueSettled (host e args)],
          host e args) /\
       network_calls tr = 0%nat).
Proof.
  destruct (consistent_perform_all acts fresh_ui fresh_ui_consistent)
    as (u' & Hp & Hc).
  destruct (consistent_queue e args u' Hc) as (call & Hq & H0 & H1).
  by exists u', call.
Qed.

Lemma queue_after_any_actions_witness :
  exists u' call keys s tr,
    perform_all [Add (js "toString") (js "fal-aaa111");
                 Select (js "toString") (VString (js "toString"))]
      fresh_ui = Some u' /\
    queuePrompt (installQueueHook (App false origQueue)) [7%nat] (store u')
    = Some call /\
    loadCredentials (store u') = Some keys /\
    own_get keys (getActiveKeyName (store u')) = Some s /\
    s <> [] /\
    run scenario_env call
    = (EvFetch (set_key_request (VString s) (getActiveKeyName (store u')))
         :: tr ++ [EvOrigQueue [7%nat];
                   EvOrigQueueSettled (host scenario_env [7%nat])],
       host scenario_env [7%nat]).
Proof.
  destruct (queue_after_any_actions scenario_env [7%nat]
              [Add (js "toString") (js "fal-aaa111");
               Select (js "toString") (VString (js "toString"))])
    as (u' & call & Hp & Hq & _ & H).
  assert (Hact : getActiveKeyName (store u') <> []).
  { vm_compute in Hp. injection Hp as <-. by vm_compute. }
  destruct (H Hact) as (keys & s & tr & Hload & Hown & Hs & Hr & _).
  by exists u', call, keys, s, tr.
Defined.

(** X22.  Saving what was loaded changes nothing that can be read:
    whatever text held the credential set, with white space, escapes or
    a key written twice, saving the loaded set and loading again gives
    the same set, and saving it twice writes what saving it once
    wrote. *)
Theorem save_of_load_is_stable (st : storage) (keys : credentials) :
  loadCredentials st = Some keys ->
  loadCredentials (saveKeys keys st) = Some keys /\
  loadKeys (saveKeys keys st) = loadKeys st /\
  saveKeys keys (saveKeys keys st) = saveKeys keys st.
Proof.
  intros Hload.
  pose proof (loadCredentials_well_formed _ _ Hload) as Hwf.
  split; [by apply loadCredentials_saveKeys|].
  split.
  - rewrite loadKeys_saveKeys by done.
    unfold loadCredentials, as_credentials in Hload.
    destruct (loadKeys st) as [| | | | |props]; try done.
    f_equal. symmetry. by apply strings_of_inv.
  - unfold saveKeys, setItem. apply insert_insert_eq.
Qed.

Lemma save_of_load_is_stable_witness :
  loadCredentials
    (setItem KEYS_STORAGE
       (js " { " ++ quote (js "b") ++ js " : " ++ quote (js "x") ++ js ", "
           ++ quote (js "2") ++ js ":" ++ quote (js "y") ++ js ", "
           ++ quote (js "b") ++ js ":" ++ quote (js "z") ++ js "} ") ∅)
  = Some [(js "2", js "y"); (js "b", js "z")] /\
  loadCredentials
    (saveKeys [(js "2", js "y"); (js "b", js "z")]
       (setItem KEYS_STORAGE
          (js " { " ++ quote (js "b") ++ js " : " ++ quote (js "x") ++ js ", "
              ++ quote (js "2") ++ js ":" ++ quote (js "y") ++ js ", "
              ++ quote (js "b") ++ js ":" ++ quote (js "z") ++ js "} ") ∅))
  = Some [(js "2", js "y"); (js "b", js "z")].
Proof.
  split; [by vm_compute|].
  apply (save_of_load_is_stable
           (setItem KEYS_STORAGE
              (js " { " ++ quote (js "b") ++ js " : " ++ quote (js "x")
                  ++ js ", "
                  ++ quote (js "2") ++ js ":" ++ quote (js "y") ++ js ", "
                  ++ quote (js "b") ++ js ":" ++ quote (js "z") ++ js "} ") ∅)
           [(js "2", js "y"); (js "b", js "z")]).
  by vm_compute.
Defined.

(** X23.  Shown is not active.  With entries stored, none under the
    empty name, and no active name set, as after the first Add or after
    the removal of the active entry, the refresh makes the selector
    show the first stored name; the active name stays empty, and a
    [queuePrompt] sends nothing until a value is picked. *)
Theorem selector_shows_a_name_that_is_not_active {Arg Res : Type}
    (e : env Arg Res) (args : list Arg) (nd : node) (ws : list widget)
    (w : widget) (st : storage) (keys : credentials) (n s : jstring) :
  loadCredentials st = Some ((n, s) :: keys) ->
  own_get ((n, s) :: keys) [] = None ->
  getActiveKeyName st = [] ->
  widgets nd = Some ws ->
  find_widget KEY_SELECTOR ws = Some w ->
  exists nd' ws' w' call,
    refreshNodeWidgets (Some nd) st = Some (Some nd') /\
    widgets nd' = Some ws' /\
    find_widget KEY_SELECTOR ws' = Some w' /\
    w_value w' = VString n /\
    queuePrompt (installQueueHook (App false origQueue)) args st = Some call /\
    run e call
    = ([EvOrigQueue args; EvOrigQueueSettled (host e args)], host e args).
Proof.
  intros Hload Hown Hact Hws Hfind.
  destruct (refreshNodeWidgets_selector nd ws w st _ Hload Hws Hfind)
    as (nd' & ws' & w' & Hr & Hws' & Hfind' & Hvals & Hval).
  destruct (queuePrompt_sends_nothing e args st _ Hload Hact Hown)
    as (call & Hq & Hrun).
  exists nd', ws', w', call. repeat (split; [done|]).
  split; [|by split].
  rewrite Hval, Hvals, Hact.
  destruct (array_includes _ []) eqn:E; [|done].
  apply array_includes_elem in E.
  destruct (own_get_of_key _ _ E) as [v Hv]. congruence.
Qed.

Lemma selector_shows_a_name_that_is_not_active_witness :
  exists nd' ws' w' call,
    refreshNodeWidgets (Some fresh_node) (saveKeys scenario_keys ∅)
    = Some (Some nd') /\
    widgets nd' = Some ws' /\
    find_widget KEY_SELECTOR ws' = Some w' /\
    w_value w' = VString (js "prod") /\
    queuePrompt (installQueueHook (App false origQueue)) [7%nat]
      (saveKeys scenario_keys ∅) = Some call /\
    run scenario_env call
    = ([EvOrigQueue [7%nat]; EvOrigQueueSettled (host scenario_env [7%nat])],
       host scenario_env [7%nat]).
Proof.
  apply (selector_shows_a_name_that_is_not_active scenario_env [7%nat]
           fresh_node
           [ {| w_name := KEY_SELECTOR; w_value := VString NO_KEYS;
                w_values := [NO_KEYS] |};
             {| w_name := STATUS_DISPLAY;
                w_value := VString (js "Active: default"); w_values := [] |};
             {| w_name := MANAGE_KEYS; w_value := VString (js "Manage Keys");
                w_values := [] |} ]
           {| w_name := KEY_SELECTOR; w_value := VString NO_KEYS;
              w_values := [NO_KEYS] |}
           (saveKeys scenario_keys ∅) [] (js "prod") (js "fal-aaa111"));
    by vm_compute.
Defined.
